(** * bank-vaults: the AWS KMS encrypting key-value store (pkg/kv/awskms)

    A shallow embedding of [pkg/kv/awskms/awskms.go] and the properties of
    its [Get]/[Set] decorator.

    Layout:
    - [utf8], [unicode], [strings]: the parts of the Go standard library
      reached through [strings.TrimSpace];
    - [errors]: the error values of emperror.dev/errors used by the file;
    - [kms], [aws]: the request and response structures of the AWS SDK;
    - [awskms]: the package itself, written over a small monad of calls to
      the two collaborators (inner store, KMS client);
    - the interpretation of those calls in a world made of a store state,
      a KMS state and the log of the calls performed;
    - the theorems. *)

From Stdlib Require Import ZArith Strings.Byte Ascii String.
From stdpp Require Import gmap strings list.

Local Open Scope Z_scope.

(** Go's [[]byte]. The nil slice and the empty slice are both [[]]: the code
    never tells them apart. *)
Abbreviation bytes := (list byte).

(** The numeric value of a byte, as Go's [uint8]. *)
Definition byte_val (b : byte) : Z := Z.of_N (Byte.to_N b).

(** [s[i]] on a byte sequence, as a number (0 out of range; every use below
    is in range). *)
Definition at_index (s : bytes) (i : Z) : Z :=
  if i <? 0 then 0 else byte_val (nth (Z.to_nat i) s x00).

(** [s[lo:hi]] *)
Definition slice (s : bytes) (lo hi : Z) : bytes :=
  take (Z.to_nat (hi - lo)) (drop (Z.to_nat lo) s).

(** Go's [len], as an [int]. *)
Definition len (s : bytes) : Z := Z.of_nat (length s).

(** Wrap-around of a signed 32-bit integer (Go's [rune] is [int32]). *)
Definition int32 (z : Z) : Z := (z + 2 ^ 31) mod 2 ^ 32 - 2 ^ 31.

(* ------------------------------------------------------------------ *)
(** ** unicode/utf8 *)

Module utf8.

Definition RuneError : Z := 0xFFFD.
Definition RuneSelf : Z := 0x80.
Definition UTFMax : Z := 4.

Definition maskx : Z := 0x3F.
Definition mask2 : Z := 0x1F.
Definition mask3 : Z := 0x0F.
Definition mask4 : Z := 0x07.

Definition locb : Z := 0x80.
Definition hicb : Z := 0xBF.

Definition xx : Z := 0xF1.
Definition as_ : Z := 0xF0.
Definition s1 : Z := 0x02.
Definition s2 : Z := 0x13.
Definition s3 : Z := 0x03.
Definition s4 : Z := 0x23.
Definition s5 : Z := 0x34.
Definition s6 : Z := 0x04.
Definition s7 : Z := 0x44.

(** The table [first]: information about the first byte of an encoding. *)
Definition first_table : list Z :=
  repeat as_ 128                                   (* 0x00-0x7F *)
  ++ repeat xx 64                                  (* 0x80-0xBF *)
  ++ [xx; xx] ++ repeat s1 14                      (* 0xC0-0xCF *)
  ++ repeat s1 16                                  (* 0xD0-0xDF *)
  ++ [s2] ++ repeat s3 12 ++ [s4; s3; s3]          (* 0xE0-0xEF *)
  ++ [s5; s6; s6; s6; s7] ++ repeat xx 11.         (* 0xF0-0xFF *)

Definition first (b : Z) : Z := nth (Z.to_nat b) first_table xx.

(** [acceptRanges]: the allowed range [(lo, hi)] of the second byte. *)
Definition acceptRanges (i : Z) : Z * Z :=
  match i with
  | 0 => (locb, hicb)
  | 1 => (0xA0, hicb)
  | 2 => (locb, 0x9F)
  | 3 => (0x90, hicb)
  | 4 => (locb, 0x8F)
  | _ => (0, 0)
  end.

Definition RuneStart (b : Z) : bool := negb (Z.land b 0xC0 =? 0x80).

(** [DecodeRuneInString]: the first rune of [s] and its width in bytes. *)
Definition DecodeRuneInString (s : bytes) : Z * Z :=
  let n := len s in
  if n <? 1 then (RuneError, 0) else
  let s0 := at_index s 0 in
  let x := first s0 in
  if as_ <=? x then
    let mask := Z.shiftr (int32 (Z.shiftl x 31)) 31 in
    (Z.lor (Z.land s0 (Z.lnot mask)) (Z.land RuneError mask), 1)
  else
  let sz := Z.land x 7 in
  let accept := acceptRanges (Z.shiftr x 4) in
  if n <? sz then (RuneError, 1) else
  let b1 := at_index s 1 in
  if (b1 <? fst accept) || (snd accept <? b1) then (RuneError, 1) else
  if sz <=? 2 then
    (Z.lor (Z.shiftl (Z.land s0 mask2) 6) (Z.land b1 maskx), 2)
  else
  let b2 := at_index s 2 in
  if (b2 <? locb) || (hicb <? b2) then (RuneError, 1) else
  if sz <=? 3 then
    (Z.lor (Z.lor (Z.shiftl (Z.land s0 mask3) 12)
                  (Z.shiftl (Z.land b1 maskx) 6))
           (Z.land b2 maskx), 3)
  else
  let b3 := at_index s 3 in
  if (b3 <? locb) || (hicb <? b3) then (RuneError, 1) else
  (Z.lor (Z.lor (Z.lor (Z.shiftl (Z.land s0 mask4) 18)
                       (Z.shiftl (Z.land b1 maskx) 12))
                (Z.shiftl (Z.land b2 maskx) 6))
         (Z.land b3 maskx), 4).

(** The backwards scan of [DecodeLastRuneInString]:
    [for start--; start >= lim; start-- { if RuneStart(s[start]) { break } }],
    entered at the decremented [start]. It runs at most [UTFMax - 1]
    times. *)
Fixpoint scan_start (n : nat) (s : bytes) (start lim : Z) : Z :=
  match n with
  | O => start
  | S n' =>
      if start <? lim then start
      else if RuneStart (at_index s start) then start
      else scan_start n' s (start - 1) lim
  end.

(** [DecodeLastRuneInString]: the last rune of [s] and its width. *)
Definition DecodeLastRuneInString (s : bytes) : Z * Z :=
  let end_ := len s in
  if end_ =? 0 then (RuneError, 0) else
  let start := end_ - 1 in
  let r := at_index s start in
  if r <? RuneSelf then (r, 1) else
  let lim := end_ - UTFMax in
  let lim := if lim <? 0 then 0 else lim in
  let start := scan_start (Z.to_nat UTFMax) s (start - 1) lim in
  let start := if start <? 0 then 0 else start in
  let '(r, size) := DecodeRuneInString (slice s start end_) in
  if negb (start + size =? end_) then (RuneError, 1) else (r, size).

End utf8.

(* ------------------------------------------------------------------ *)
(** ** unicode *)

Module unicode.

Definition MaxLatin1 : Z := 0xFF.

Record RangeTable := {
  R16 : list (Z * Z * Z);      (* Lo, Hi, Stride *)
  R32 : list (Z * Z * Z);
  LatinOffset : nat
}.

Definition White_Space : RangeTable := {|
  R16 := [ (0x0009, 0x000d, 1); (0x0020, 0x0020, 1); (0x0085, 0x0085, 1);
           (0x00a0, 0x00a0, 1); (0x1680, 0x1680, 1); (0x2000, 0x200a, 1);
           (0x2028, 0x2029, 1); (0x202f, 0x202f, 1); (0x205f, 0x205f, 1);
           (0x3000, 0x3000, 1) ];
  R32 := [];
  LatinOffset := 4
|}.

(** [is16], [is32]: is [r] in one of the ranges? (Go searches linearly or
    by bisection depending on the length; the answer is the same.) *)
Definition in_ranges (ranges : list (Z * Z * Z)) (r : Z) : bool :=
  existsb (fun '(lo, hi, stride) =>
             (lo <=? r) && (r <=? hi)
             && ((stride =? 1) || ((r - lo) mod stride =? 0)))
          ranges.

Definition isExcludingLatin (rangeTab : RangeTable) (r : Z) : bool :=
  let r16 := R16 rangeTab in
  let off := LatinOffset rangeTab in
  if (off <? length r16)%nat && (r <=? snd (fst (List.last r16 (0, 0, 1))))
  then in_ranges (drop off r16) r
  else
    let r32 := R32 rangeTab in
    if (0 <? length r32)%nat
       && (fst (fst (List.hd (0, 0, 1) r32)) <=? r)
    then in_ranges r32 r
    else false.

Definition IsSpace (r : Z) : bool :=
  if r <=? MaxLatin1 then
    match r with
    | 0x09 | 0x0A | 0x0B | 0x0C | 0x0D | 0x20 | 0x85 | 0xA0 => true
    | _ => false
    end
  else isExcludingLatin White_Space r.

End unicode.

(* ------------------------------------------------------------------ *)
(** ** strings *)

Module strings.

(** [asciiSpace]: 1 on the six ASCII space characters, 0 elsewhere. *)
Definition asciiSpace (c : Z) : Z :=
  match c with
  | 0x09 | 0x0A | 0x0B | 0x0C | 0x0D | 0x20 => 1
  | _ => 0
  end.

(** [indexFunc]: [for i, r := range s { if f(r) == truth { return i } }],
    entered at byte offset [i]. A [range] over a string decodes one rune
    per turn, as [utf8.DecodeRuneInString] does. [fuel] bounds the number
    of turns; [length s] is enough (lemma [indexFunc_loop_fuel]). *)
Fixpoint indexFunc_loop (fuel : nat) (s : bytes) (i : Z)
    (f : Z -> bool) (truth : bool) : Z :=
  match fuel with
  | O => -1
  | S fuel' =>
      if len s <=? i then -1 else
      let '(r, size) := utf8.DecodeRuneInString (slice s i (len s)) in
      if Bool.eqb (f r) truth then i
      else indexFunc_loop fuel' s (i + size) f truth
  end.

Definition indexFunc (s : bytes) (f : Z -> bool) (truth : bool) : Z :=
  indexFunc_loop (length s) s 0 f truth.

(** [lastIndexFunc]:
    [for i := len(s); i > 0; { r, size := DecodeLastRuneInString(s[0:i]);
       i -= size; if f(r) == truth { return i } }],
    entered at [i]. *)
Fixpoint lastIndexFunc_loop (fuel : nat) (s : bytes) (i : Z)
    (f : Z -> bool) (truth : bool) : Z :=
  match fuel with
  | O => -1
  | S fuel' =>
      if i <=? 0 then -1 else
      let '(r, size) := utf8.DecodeLastRuneInString (slice s 0 i) in
      let i := i - size in
      if Bool.eqb (f r) truth then i
      else lastIndexFunc_loop fuel' s i f truth
  end.

Definition lastIndexFunc (s : bytes) (f : Z -> bool) (truth : bool) : Z :=
  lastIndexFunc_loop (length s) s (len s) f truth.

Definition TrimLeftFunc (s : bytes) (f : Z -> bool) : bytes :=
  let i := indexFunc s f false in
  if i =? -1 then [] else slice s i (len s).

Definition TrimRightFunc (s : bytes) (f : Z -> bool) : bytes :=
  let i := lastIndexFunc s f false in
  let i :=
    if (0 <=? i) && (utf8.RuneSelf <=? at_index s i)
    then i + snd (utf8.DecodeRuneInString (slice s i (len s)))
    else i + 1 in
  slice s 0 i.

Definition TrimFunc (s : bytes) (f : Z -> bool) : bytes :=
  TrimRightFunc (TrimLeftFunc s f) f.

(** The second loop of [TrimSpace], on [s = s[start:]]:
    [for ; stop > start; stop-- { ... }]. *)
Fixpoint TrimSpace_stop (s : bytes) (stop : nat) : bytes :=
  match stop with
  | O => []
  | S stop' =>
      let c := at_index s (Z.of_nat stop') in
      if utf8.RuneSelf <=? c then
        TrimRightFunc (slice s 0 (Z.of_nat stop)) unicode.IsSpace
      else if asciiSpace c =? 0 then slice s 0 (Z.of_nat stop)
      else TrimSpace_stop s stop'
  end.

(** The first loop of [TrimSpace], on [s = s[start:]]:
    [for ; start < len(s); start++ { ... }], followed by the second. *)
Fixpoint TrimSpace_start (s : bytes) : bytes :=
  match s with
  | [] => TrimSpace_stop [] 0
  | c :: s' =>
      if utf8.RuneSelf <=? byte_val c then TrimFunc s unicode.IsSpace
      else if asciiSpace (byte_val c) =? 0 then TrimSpace_stop s (length s)
      else TrimSpace_start s'
  end.

(** [strings.TrimSpace]. A Go string is its byte sequence; Rocq's [string]
    is a sequence of 8-bit characters, read here as bytes. *)
Definition TrimSpace (s : string) : string :=
  string_of_list_byte (TrimSpace_start (list_byte_of_string s)).

End strings.

Local Close Scope Z_scope.

(* ------------------------------------------------------------------ *)
(** ** emperror.dev/errors *)

Module errors.

(** Error values, without their stack traces. A Go [error] that may be
    [nil] is an [option error]. *)
Inductive error : Type :=
| fundamental (msg : string)
| withMessage (cause : error) (msg : string).

(** The [Error()] method. *)
Fixpoint Error (e : error) : string :=
  match e with
  | fundamental msg => msg
  | withMessage cause msg => msg +:+ ": " +:+ Error cause
  end.

(** [fmt.Sprintf] for a format with one [%s] verb and one string
    argument. *)
Fixpoint Sprintf (format : string) (a : string) : string :=
  match format with
  | String "%" (String "s" rest) => a +:+ rest
  | String c rest => String c (Sprintf rest a)
  | EmptyString => EmptyString
  end.

Definition Errorf (format : string) (a : string) : option error :=
  Some (fundamental (Sprintf format a)).

(** [WrapIf]: [nil] stays [nil]; otherwise the error is annotated with the
    message. *)
Definition WrapIf (err : option error) (message : string) : option error :=
  match err with
  | None => None
  | Some e => Some (withMessage e message)
  end.

End errors.

Export errors (error).

(* ------------------------------------------------------------------ *)
(** ** The AWS SDK: aws, session, kms *)

Module aws.

Record Config := { Region : option string }.

Definition NewConfig : Config := {| Region := None |}.
Definition WithRegion (c : Config) (region : string) : Config :=
  {| Region := Some region |}.

(** [aws.String]: a pointer to the string. *)
Definition String (v : string) : option string := Some v.

(** [aws.StringMap]: a fresh map with a pointer to a copy of each value:
    [dst := make(...); for k, val := range src { v := val; dst[k] = &v }]. *)
Definition StringMap (src : gmap string string) : gmap string string :=
  map_fold (fun k val dst => <[k := val]> dst) empty src.

End aws.

Module session.

Record Session := { Config : aws.Config }.

(** [session.Must]: panics ([None]) on an error. *)
Definition Must (r : Session * option error) : option Session :=
  match snd r with
  | Some _ => None
  | None => Some (fst r)
  end.

End session.

Module kms.

(** The client made by [kms.New]. *)
Record KMS := New { Session : session.Session }.

Record DecryptInput := {
  DecryptInput_CiphertextBlob : bytes;
  DecryptInput_EncryptionContext : gmap string string;
  DecryptInput_GrantTokens : list string
}.

Record DecryptOutput := {
  DecryptOutput_KeyId : option string;
  DecryptOutput_Plaintext : bytes
}.

Record EncryptInput := {
  EncryptInput_KeyId : option string;
  EncryptInput_Plaintext : bytes;
  EncryptInput_EncryptionContext : gmap string string;
  EncryptInput_GrantTokens : list string
}.

Record EncryptOutput := {
  EncryptOutput_KeyId : option string;
  EncryptOutput_CiphertextBlob : bytes
}.

End kms.

(* ------------------------------------------------------------------ *)
(** ** pkg/kv *)

Module kv.

(** Modelled from the spec: the interface [kv.Service] of package pkg/kv,
    whose declaration is not part of this file's sources:
    [Get(key string) -> (value []byte, error)] and
    [Set(key string, value []byte) -> error]. [M] is the monad the
    methods run in. ([Set] is reserved in Rocq, hence [Set_].) *)
Class Service (M : Type -> Type) (T : Type) := {
  Get : T -> string -> M (bytes * option error)%type;
  Set_ : T -> string -> bytes -> M (option error)
}.

End kv.

(* ------------------------------------------------------------------ *)
(** ** pkg/kv/awskms *)

Module awskms.

Definition SseAES256 : string := "AES256".
Definition SseKMS : string := "aws:kms".

Section WithStore.

(** The values that sit behind the [kv.Service] interface of the inner
    store. *)
Context {Store : Type}.

(** The calls the package makes to its two collaborators, each with
    the type of what comes back. *)
Inductive Call : Type -> Type :=
| StoreGet (s : Store) (key : string) : Call (bytes * option error)
| StoreSet (s : Store) (key : string) (val : bytes) : Call (option error)
| KmsDecrypt (c : kms.KMS) (input : kms.DecryptInput)
    : Call (kms.DecryptOutput * option error)
| KmsEncrypt (c : kms.KMS) (input : kms.EncryptInput)
    : Call (kms.EncryptOutput * option error).

(** A computation: a result, or a call and what to do with its answer. *)
Inductive Prog (A : Type) : Type :=
| Ret (a : A)
| Do {X : Type} (c : Call X) (k : X -> Prog A).

Global Arguments Ret {A} a.
Global Arguments Do {A X} c k.

Fixpoint bind {A B : Type} (p : Prog A) (f : A -> Prog B) : Prog B :=
  match p with
  | Ret a => f a
  | Do c k => Do c (fun x => bind (k x) f)
  end.

Definition call {X : Type} (c : Call X) : Prog X := Do c Ret.

Global Instance Prog_ret : MRet Prog := @Ret.
Global Instance Prog_bind : MBind Prog := fun A B f p => bind p f.

(** The inner store is used through its interface. *)
Global Instance Store_Service : kv.Service Prog Store := {|
  kv.Get s key := call (StoreGet s key);
  kv.Set_ s key val := call (StoreSet s key val)
|}.

Record awsKMS := {
  store : Store;
  kmsService : kms.KMS;
  kmsID : string;
  encryptionContext : gmap string string
}.

(** [NewWithSession]: a new [kv.Service] encrypted by AWS KMS, with an
    existing AWS session. *)
Definition NewWithSession (sess : session.Session) (store : Store)
    (kmsID : string) (encryptionContext : gmap string string)
  : option awsKMS * option error :=
  if String.eqb kmsID "" then
    (None, errors.Errorf "invalid kmsID specified: '%s'" kmsID)
  else
    (Some {| store := store;
             kmsService := kms.New sess;
             kmsID := kmsID;
             encryptionContext := aws.StringMap encryptionContext |},
     None).

(** [New]. [NewSession] stands for [session.NewSession], which reads the
    environment of the process; a panic of [session.Must] is [None]. *)
Definition New
    (NewSession : aws.Config -> session.Session * option error)
    (store : Store) (region : string) (kmsID : string)
    (encryptionContext : gmap string string)
  : option (option awsKMS * option error) :=
  sess ← session.Must (NewSession (aws.WithRegion aws.NewConfig region));
  Some (NewWithSession sess store kmsID encryptionContext).

Definition decrypt (a : awsKMS) (cipherText : bytes)
  : Prog (bytes * option error) :=
  '(out, err) ← call (KmsDecrypt (kmsService a) {|
       kms.DecryptInput_CiphertextBlob := cipherText;
       kms.DecryptInput_EncryptionContext := encryptionContext a;
       kms.DecryptInput_GrantTokens := []
     |});
  match err with
  | Some _ =>
      mret ([], errors.WrapIf err "failed to decrypt with KMS client")
  | None =>
      let trimKey :=
        strings.TrimSpace
          (string_of_list_byte (kms.DecryptOutput_Plaintext out)) in
      mret (list_byte_of_string trimKey, None)
  end.

Definition Get (a : awsKMS) (key : string) : Prog (bytes * option error) :=
  '(cipherText, err) ← kv.Get (store a) key;
  match err with
  | Some _ =>
      mret ([], errors.WrapIf err "failed to get data for KMS client")
  | None => decrypt a cipherText
  end.

Definition encrypt (a : awsKMS) (plainText : bytes)
  : Prog (bytes * option error) :=
  '(out, err) ← call (KmsEncrypt (kmsService a) {|
       kms.EncryptInput_KeyId := aws.String (kmsID a);
       kms.EncryptInput_Plaintext := plainText;
       kms.EncryptInput_EncryptionContext := encryptionContext a;
       kms.EncryptInput_GrantTokens := []
     |});
  match err with
  | Some _ =>
      mret ([], errors.WrapIf err "failed to encrypt with KMS client")
  | None => mret (kms.EncryptOutput_CiphertextBlob out, None)
  end.

Definition Set_ (a : awsKMS) (key : string) (val : bytes)
  : Prog (option error) :=
  '(cipherText, err) ← encrypt a val;
  match err with
  | Some _ => mret err
  | None => kv.Set_ (store a) key cipherText
  end.

(** [var _ kv.Service = &awsKMS{}] *)
Global Instance awsKMS_Service : kv.Service Prog awsKMS := {|
  kv.Get := Get;
  kv.Set_ := Set_
|}.

End WithStore.

Global Arguments Call : clear implicits.
Global Arguments Prog : clear implicits.
Global Arguments awsKMS : clear implicits.

End awskms.

Import awskms.

(* ------------------------------------------------------------------ *)
(** ** The collaborators and the runs of a computation *)

(** What the inner store and the remote key-management service do when
    called: each has a state of its own, which a call may change, and
    answers as the Go signatures say. *)
Record Collaborators (Store : Type) := {
  StoreState : Type;
  KmsState : Type;
  store_Get : Store -> string -> StoreState ->
              (bytes * option error) * StoreState;
  store_Set : Store -> string -> bytes -> StoreState ->
              option error * StoreState;
  kms_Decrypt : kms.KMS -> kms.DecryptInput -> KmsState ->
                (kms.DecryptOutput * option error) * KmsState;
  kms_Encrypt : kms.KMS -> kms.EncryptInput -> KmsState ->
                (kms.EncryptOutput * option error) * KmsState
}.

Arguments StoreState {Store} _.
Arguments KmsState {Store} _.
Arguments store_Get {Store} _ _ _ _.
Arguments store_Set {Store} _ _ _ _ _.
Arguments kms_Decrypt {Store} _ _ _ _.
Arguments kms_Encrypt {Store} _ _ _ _.

(** A call, as it is observed from outside. *)
Inductive Event (Store : Type) : Type :=
| EvStoreGet (s : Store) (key : string)
| EvStoreSet (s : Store) (key : string) (val : bytes)
| EvKmsDecrypt (c : kms.KMS) (input : kms.DecryptInput)
| EvKmsEncrypt (c : kms.KMS) (input : kms.EncryptInput).

Arguments EvStoreGet {Store} s key.
Arguments EvStoreSet {Store} s key val.
Arguments EvKmsDecrypt {Store} c input.
Arguments EvKmsEncrypt {Store} c input.

Section Run.

Context {Store : Type} (E : Collaborators Store).

Record World := {
  store_state : StoreState E;
  kms_state : KmsState E
}.

(** What a run leaves behind: the value returned, the world after it and
    the calls made, in order. *)
Record Outcome (A : Type) := {
  result : A;
  final : World;
  trace : list (Event Store)
}.

Arguments result {A} _.
Arguments final {A} _.
Arguments trace {A} _.

Definition event_of {X : Type} (c : Call Store X) : Event Store :=
  match c with
  | StoreGet s key => EvStoreGet s key
  | StoreSet s key val => EvStoreSet s key val
  | KmsDecrypt c input => EvKmsDecrypt c input
  | KmsEncrypt c input => EvKmsEncrypt c input
  end.

(** One call: the collaborator answers and moves to its next state. *)
Definition handle {X : Type} (c : Call Store X) (w : World) : X * World :=
  match c in Call _ X return X * World with
  | StoreGet s key =>
      let '(r, ss) := store_Get E s key (store_state w) in
      (r, {| store_state := ss; kms_state := kms_state w |})
  | StoreSet s key val =>
      let '(r, ss) := store_Set E s key val (store_state w) in
      (r, {| store_state := ss; kms_state := kms_state w |})
  | KmsDecrypt c input =>
      let '(r, ks) := kms_Decrypt E c input (kms_state w) in
      (r, {| store_state := store_state w; kms_state := ks |})
  | KmsEncrypt c input =>
      let '(r, ks) := kms_Encrypt E c input (kms_state w) in
      (r, {| store_state := store_state w; kms_state := ks |})
  end.

Fixpoint run {A : Type} (p : Prog Store A) (w : World) : Outcome A :=
  match p with
  | Ret a => {| result := a; final := w; trace := [] |}
  | Do c k =>
      let '(x, w') := handle c w in
      let o := run (k x) w' in
      {| result := result o; final := final o;
         trace := event_of c :: trace o |}
  end.

End Run.

Arguments World {Store} E.
Arguments store_state {Store E} _.
Arguments kms_state {Store E} _.
Arguments Outcome {Store} E A.
Arguments result {Store E A} _.
Arguments final {Store E A} _.
Arguments trace {Store E A} _.

(* ------------------------------------------------------------------ *)
(** ** Test doubles: a store in memory and a reversible stand-in for KMS *)

Module fake.

(** Two stores in memory: one that accepts writes, one that refuses
    them. *)
Inductive Store := Writable | ReadOnly.

Definition memGet (s : Store) (key : string) (m : gmap string bytes)
  : (bytes * option error) * gmap string bytes :=
  match m !! key with
  | Some v => ((v, None), m)
  | None => (([], Some (errors.fundamental "key not found")), m)
  end.

Definition memSet (s : Store) (key : string) (val : bytes)
    (m : gmap string bytes) : option error * gmap string bytes :=
  match s with
  | Writable => (None, <[key := val]> m)
  | ReadOnly => (Some (errors.fundamental "store is read-only"), m)
  end.

(** The stand-in for KMS knows one key, [alias/test-key]. A ciphertext
    is a version byte followed by the plaintext reversed. The state
    counts the requests served. *)
Definition Encrypt (c : kms.KMS) (input : kms.EncryptInput) (n : nat)
  : (kms.EncryptOutput * option error) * nat :=
  match kms.EncryptInput_KeyId input with
  | Some "alias/test-key"%string =>
      (({| kms.EncryptOutput_KeyId := Some "alias/test-key"%string;
           kms.EncryptOutput_CiphertextBlob :=
             x01 :: rev (kms.EncryptInput_Plaintext input) |}, None), S n)
  | _ =>
      (({| kms.EncryptOutput_KeyId := None;
           kms.EncryptOutput_CiphertextBlob := [] |},
        Some (errors.fundamental "NotFoundException")), S n)
  end.

Definition Decrypt (c : kms.KMS) (input : kms.DecryptInput) (n : nat)
  : (kms.DecryptOutput * option error) * nat :=
  match kms.DecryptInput_CiphertextBlob input with
  | x01 :: r =>
      (({| kms.DecryptOutput_KeyId := Some "alias/test-key"%string;
           kms.DecryptOutput_Plaintext := rev r |}, None), S n)
  | _ =>
      (({| kms.DecryptOutput_KeyId := None;
           kms.DecryptOutput_Plaintext := [] |},
        Some (errors.fundamental "InvalidCiphertextException")), S n)
  end.

Definition collaborators : Collaborators Store := {|
  StoreState := gmap string bytes;
  KmsState := nat;
  store_Get := memGet;
  store_Set := memSet;
  kms_Decrypt := Decrypt;
  kms_Encrypt := Encrypt
|}.

Definition sess : session.Session :=
  {| session.Config := aws.WithRegion aws.NewConfig "eu-west-1" |}.

(** The decorator [NewWithSession] makes for a key identifier, with an
    empty encryption context. *)
Definition decorator (s : Store) (kmsID : string) : awsKMS Store :=
  {| store := s;
     kmsService := kms.New sess;
     kmsID := kmsID;
     encryptionContext := ∅ |}.

Definition world0 : World collaborators :=
  @Build_World Store collaborators (∅ : gmap string bytes) 0%nat.

Definition secret : bytes := list_byte_of_string "secret ".
Definition no_context : gmap string string := ∅.
Definition no_data : gmap string bytes := ∅.

(** A decorator for the key KMS knows, one for a key it does not know,
    and one on the store that refuses writes. *)
Definition good : awsKMS Store := decorator Writable "alias/test-key".
Definition unknown_key : awsKMS Store := decorator Writable "alias/other".
Definition read_only : awsKMS Store := decorator ReadOnly "alias/test-key".

(** The world after [Set("password", "secret ")] on [good]. *)
Definition world1 : World collaborators :=
  final (run collaborators (Set_ good "password" secret) world0).

(** A world whose store holds bytes that are not a ciphertext. *)
Definition world_garbage : World collaborators :=
  @Build_World Store collaborators
    (<["password" := list_byte_of_string "plain"]> no_data) 0.

(** A world where the ciphertext of [secret] sits under another key than
    the one it was written to, KMS having served one request. *)
Definition world_moved : World collaborators :=
  @Build_World Store collaborators
    (<["elsewhere" := x01 :: rev secret]> no_data) 1.

(** More values: one with nothing to trim, one with white space in
    front, one of white space only; and a world whose store holds the
    ciphertext of the last one. *)
Definition plain_secret : bytes := list_byte_of_string "secret".
Definition padded : bytes := list_byte_of_string " secret".
Definition blank : bytes := [" "%byte; x09; x0a].

Definition world_blank : World collaborators :=
  @Build_World Store collaborators
    (<["password" := x01 :: rev blank]> no_data) 0.

(** Two stand-ins for [session.NewSession]: one that makes the session
    of the configuration, one that fails. *)
Definition NewSession_ok (cfg : aws.Config)
  : session.Session * option error :=
  ({| session.Config := cfg |}, None).

Definition NewSession_fails (cfg : aws.Config)
  : session.Session * option error :=
  ({| session.Config := cfg |},
   Some (errors.fundamental "NoCredentialProviders")).

End fake.

(* ------------------------------------------------------------------ *)
(** ** Vocabulary for the statements *)

(** Trimming as the documentation of [strings.TrimSpace] words it, for
    text in ASCII: drop the white-space characters at the front, then those
    at the back. Compared with [strings.TrimSpace] in
    [TrimSpace_ascii]. *)
Definition is_ascii_space (b : byte) : bool :=
  negb (strings.asciiSpace (byte_val b) =? 0)%Z.

Fixpoint drop_spaces (s : bytes) : bytes :=
  match s with
  | [] => []
  | b :: s' => if is_ascii_space b then drop_spaces s' else s
  end.

Definition trim_ascii_space (s : bytes) : bytes :=
  rev (drop_spaces (rev (drop_spaces s))).

(** Text in ASCII: every byte is below [utf8.RuneSelf]. *)
Definition is_ascii (s : bytes) : Prop :=
  Forall (fun b => (byte_val b < utf8.RuneSelf)%Z) s.

(** Only ASCII white space. *)
Definition all_ascii_space (s : bytes) : Prop :=
  Forall (fun b => is_ascii_space b = true) s.

(** Does the text begin, or end, with an ASCII white-space character? *)
Definition starts_with_space (s : bytes) : bool :=
  match s with
  | [] => false
  | b :: _ => is_ascii_space b
  end.

Definition ends_with_space (s : bytes) : bool := starts_with_space (rev s).

(** [r] is a run of consecutive bytes of [s]. *)
Definition part_of (r s : bytes) : Prop :=
  exists pre post : bytes, s = pre ++ r ++ post.

Section Vocabulary.

Context {Store : Type} (E : Collaborators Store).

Implicit Types (a : awsKMS Store) (w : World E).
Implicit Types (key : string) (val cipherText : bytes).

(** The world after a call to the inner store, or to KMS. *)
Definition with_store w (ss : StoreState E) : World E :=
  {| store_state := ss; kms_state := kms_state w |}.
Definition with_kms w (ks : KmsState E) : World E :=
  {| store_state := store_state w; kms_state := ks |}.

(** What the inner store and KMS answer in the world [w]. *)
Definition store_Get_in w (s : Store) key :=
  store_Get E s key (store_state w).
Definition store_Set_in w (s : Store) key val :=
  store_Set E s key val (store_state w).
Definition kms_Decrypt_in w (c : kms.KMS) (input : kms.DecryptInput) :=
  kms_Decrypt E c input (kms_state w).
Definition kms_Encrypt_in w (c : kms.KMS) (input : kms.EncryptInput) :=
  kms_Encrypt E c input (kms_state w).

(** The request [decrypt] sends for a ciphertext, and the one [encrypt]
    sends for a plaintext. *)
Definition DecryptRequest a cipherText : kms.DecryptInput := {|
  kms.DecryptInput_CiphertextBlob := cipherText;
  kms.DecryptInput_EncryptionContext := encryptionContext a;
  kms.DecryptInput_GrantTokens := []
|}.
Definition EncryptRequest a val : kms.EncryptInput := {|
  kms.EncryptInput_KeyId := aws.String (kmsID a);
  kms.EncryptInput_Plaintext := val;
  kms.EncryptInput_EncryptionContext := encryptionContext a;
  kms.EncryptInput_GrantTokens := []
|}.

(** [[]byte(strings.TrimSpace(string(b)))] *)
Definition trimmed (b : bytes) : bytes :=
  list_byte_of_string (strings.TrimSpace (string_of_list_byte b)).

(** The remote service's [Decrypt] inverts its [Encrypt], for one key
    identifier and one encryption context: whatever [Encrypt] returns
    without error, [Decrypt] turns back into the plaintext when called
    next. *)
Definition decrypt_inverts_encrypt (c : kms.KMS) (keyID : string)
    (ctx : gmap string string) : Prop :=
  forall (plainText : bytes) (ks ks1 : KmsState E) (out : kms.EncryptOutput),
    kms_Encrypt E c
      {| kms.EncryptInput_KeyId := Some keyID;
         kms.EncryptInput_Plaintext := plainText;
         kms.EncryptInput_EncryptionContext := ctx;
         kms.EncryptInput_GrantTokens := [] |} ks = (out, None, ks1) ->
    exists (dout : kms.DecryptOutput) (ks2 : KmsState E),
      kms_Decrypt E c
        {| kms.DecryptInput_CiphertextBlob :=
             kms.EncryptOutput_CiphertextBlob out;
           kms.DecryptInput_EncryptionContext := ctx;
           kms.DecryptInput_GrantTokens := [] |} ks1 = (dout, None, ks2)
      /\ kms.DecryptOutput_Plaintext dout = plainText.

(** The inner store returns on [Get(k)] the last value written by
    [Set(k, _)]. *)
Definition get_returns_last_set (s : Store) : Prop :=
  forall key val (ss ss1 : StoreState E),
    store_Set E s key val ss = (None, ss1) ->
    exists ss2 : StoreState E, store_Get E s key ss1 = (val, None, ss2).

End Vocabulary.

Arguments with_store {Store E} w ss.
Arguments with_kms {Store E} w ks.
Arguments store_Get_in {Store E} w s key.
Arguments store_Set_in {Store E} w s key val.
Arguments kms_Decrypt_in {Store E} w c input.
Arguments kms_Encrypt_in {Store E} w c input.

(* ------------------------------------------------------------------ *)
(** ** Facts about the library functions *)

Local Open Scope Z_scope.

Lemma len_nonneg (s : bytes) : 0 <= len s.
Proof. unfold len. lia. Qed.

Lemma len_slice (s : bytes) (lo hi : Z) :
  0 <= lo -> lo <= hi -> hi <= len s -> len (slice s lo hi) = hi - lo.
Proof.
  unfold len, slice. intros Hlo Hhi Hlen.
  rewrite length_take, length_drop. lia.
Qed.

(** A rune decoded from a non-empty string is between one and four bytes
    wide. *)
Lemma DecodeRuneInString_size (s : bytes) :
  0 < len s ->
  1 <= snd (utf8.DecodeRuneInString s) <= 4.
Proof.
  intros Hs. unfold utf8.DecodeRuneInString.
  destruct (len s <? 1) eqn:Hn; [lia|].
  repeat match goal with
         | |- context [if ?b then _ else _] => destruct b
         end; simpl; lia.
Qed.

Lemma scan_start_le (n : nat) (s : bytes) (start lim : Z) :
  utf8.scan_start n s start lim <= start.
Proof.
  revert start. induction n as [|n IH]; intros start; simpl; [lia|].
  destruct (start <? lim); [lia|].
  destruct (utf8.RuneStart _); [lia|].
  specialize (IH (start - 1)). lia.
Qed.

Lemma DecodeLastRuneInString_size (s : bytes) :
  0 < len s ->
  1 <= snd (utf8.DecodeLastRuneInString s) <= len s.
Proof.
  intros Hs. unfold utf8.DecodeLastRuneInString.
  destruct (len s =? 0) eqn:Hn; [lia|].
  destruct (_ <? utf8.RuneSelf); [simpl; lia|].
  set (lim := if len s - utf8.UTFMax <? 0 then 0 else len s - utf8.UTFMax).
  pose proof (scan_start_le (Z.to_nat utf8.UTFMax) s (len s - 1 - 1) lim) as Hle.
  set (st := utf8.scan_start _ _ _ _) in *.
  set (start := if st <? 0 then 0 else st).
  assert (0 <= start <= len s - 1) as Hstart.
  { unfold start. destruct (st <? 0) eqn:Hst; lia. }
  destruct (utf8.DecodeRuneInString _) as [r size] eqn:Hdec.
  destruct (start + size =? len s) eqn:Heq; simpl; lia.
Qed.

(** [length s] turns are enough for the loop of [indexFunc]: more fuel does
    not change its answer. *)
Lemma indexFunc_loop_fuel (f : Z -> bool) (truth : bool) (s : bytes) :
  forall (fuel1 fuel2 : nat) (i : Z),
    0 <= i ->
    len s - i <= Z.of_nat fuel1 -> len s - i <= Z.of_nat fuel2 ->
    strings.indexFunc_loop fuel1 s i f truth
    = strings.indexFunc_loop fuel2 s i f truth.
Proof.
  induction fuel1 as [|fuel1 IH]; intros fuel2 i Hi H1 H2.
  - destruct fuel2 as [|fuel2]; simpl; [reflexivity|].
    destruct (len s <=? i) eqn:Hle; [reflexivity|lia].
  - destruct fuel2 as [|fuel2]; simpl.
    + destruct (len s <=? i) eqn:Hle; [reflexivity|lia].
    + destruct (len s <=? i) eqn:Hle; [reflexivity|].
      pose proof (len_slice s i (len s) Hi ltac:(lia) ltac:(lia)) as Hlen.
      pose proof (DecodeRuneInString_size (slice s i (len s)) ltac:(lia))
        as Hsz.
      destruct (utf8.DecodeRuneInString _) as [r size]. simpl in Hsz.
      destruct (Bool.eqb (f r) truth); [reflexivity|].
      apply IH; lia.
Qed.

(** The same for the loop of [lastIndexFunc]. *)
Lemma lastIndexFunc_loop_fuel (f : Z -> bool) (truth : bool) (s : bytes) :
  forall (fuel1 fuel2 : nat) (i : Z),
    i <= len s ->
    i <= Z.of_nat fuel1 -> i <= Z.of_nat fuel2 ->
    strings.lastIndexFunc_loop fuel1 s i f truth
    = strings.lastIndexFunc_loop fuel2 s i f truth.
Proof.
  induction fuel1 as [|fuel1 IH]; intros fuel2 i Hi H1 H2.
  - destruct fuel2 as [|fuel2]; simpl; [reflexivity|].
    destruct (i <=? 0) eqn:Hle; [reflexivity|lia].
  - destruct fuel2 as [|fuel2]; simpl.
    + destruct (i <=? 0) eqn:Hle; [reflexivity|lia].
    + destruct (i <=? 0) eqn:Hle; [reflexivity|].
      pose proof (len_slice s 0 i ltac:(lia) ltac:(lia) Hi) as Hlen.
      pose proof (DecodeLastRuneInString_size (slice s 0 i) ltac:(lia))
        as Hsz.
      destruct (utf8.DecodeLastRuneInString _) as [r size]. simpl in Hsz.
      destruct (Bool.eqb (f r) truth); [reflexivity|].
      apply IH; lia.
Qed.

(** The backwards scan of [DecodeLastRuneInString] ends by its own test:
    more turns do not change where it stops. *)
Lemma scan_start_fuel (s : bytes) (lim : Z) :
  forall (n m : nat) (start : Z),
    start - lim + 1 <= Z.of_nat n -> start - lim + 1 <= Z.of_nat m ->
    utf8.scan_start n s start lim = utf8.scan_start m s start lim.
Proof.
  induction n as [|n IH]; intros m start Hn Hm.
  - destruct m as [|m]; simpl; [reflexivity|].
    destruct (start <? lim) eqn:Hlt; [reflexivity|lia].
  - destruct m as [|m]; simpl.
    + destruct (start <? lim) eqn:Hlt; [reflexivity|lia].
    + destruct (start <? lim) eqn:Hlt; [reflexivity|].
      destruct (utf8.RuneStart _); [reflexivity|].
      apply IH; lia.
Qed.

(** [UTFMax] turns are enough for that scan, wherever it is used. *)
Lemma scan_start_UTFMax (s : bytes) (n : nat) :
  let end_ := len s in
  let lim := if end_ - utf8.UTFMax <? 0 then 0 else end_ - utf8.UTFMax in
  0 < end_ ->
  utf8.scan_start (Z.to_nat utf8.UTFMax + n) s (end_ - 1 - 1) lim
  = utf8.scan_start (Z.to_nat utf8.UTFMax) s (end_ - 1 - 1) lim.
Proof.
  intros end_ lim Hpos. apply scan_start_fuel; unfold lim, utf8.UTFMax;
    destruct (end_ - 4 <? 0) eqn:Hlt; lia.
Qed.

(** *** [strings.TrimSpace] on ASCII text *)

Lemma at_index_lookup (s : bytes) (n : nat) (b : byte) :
  s !! n = Some b -> at_index s (Z.of_nat n) = byte_val b.
Proof.
  intros Hb. unfold at_index.
  destruct (Z.ltb_spec (Z.of_nat n) 0) as [Hneg|_]; [exfalso; lia|].
  rewrite Nat2Z.id. f_equal.
  apply nth_lookup_Some with (d := x00) in Hb. exact Hb.
Qed.

Lemma slice_0 (s : bytes) (n : nat) : slice s 0 (Z.of_nat n) = take n s.
Proof.
  unfold slice. rewrite Z.sub_0_r, Nat2Z.id. reflexivity.
Qed.

(** The second loop of [TrimSpace] drops the ASCII spaces at the back. *)
Lemma TrimSpace_stop_ascii (s : bytes) :
  Forall (fun b => byte_val b < utf8.RuneSelf) s ->
  forall n : nat, (n <= length s)%nat ->
    strings.TrimSpace_stop s n = rev (drop_spaces (rev (take n s))).
Proof.
  intros Hascii. induction n as [|n IH]; intros Hn.
  - reflexivity.
  - destruct (lookup_lt_is_Some_2 s n ltac:(lia)) as [b Hb].
    cbn [strings.TrimSpace_stop]. rewrite (at_index_lookup _ _ _ Hb).
    rewrite (take_S_r _ _ _ Hb), rev_app_distr. cbn [rev app drop_spaces].
    assert (byte_val b < utf8.RuneSelf) as Hlt.
    { rewrite Forall_forall in Hascii. apply Hascii.
      apply list_elem_of_lookup. eauto. }
    destruct (utf8.RuneSelf <=? byte_val b) eqn:Hge; [lia|].
    unfold is_ascii_space.
    destruct (strings.asciiSpace (byte_val b) =? 0) eqn:Hsp; cbn [negb].
    + rewrite slice_0, (take_S_r _ _ _ Hb).
      cbn [rev]. rewrite rev_involutive. reflexivity.
    + apply IH. lia.
Qed.

(** On text in ASCII, [strings.TrimSpace] is the trimming of the white
    space at both ends. *)
Lemma TrimSpace_ascii (s : bytes) :
  Forall (fun b => byte_val b < utf8.RuneSelf) s ->
  strings.TrimSpace_start s = trim_ascii_space s.
Proof.
  unfold trim_ascii_space.
  induction s as [|c s IH]; intros Hascii; [reflexivity|].
  pose proof (Forall_inv Hascii) as Hc. cbn beta in Hc.
  cbn [strings.TrimSpace_start drop_spaces].
  destruct (utf8.RuneSelf <=? byte_val c) eqn:Hge; [lia|].
  unfold is_ascii_space at 1.
  destruct (strings.asciiSpace (byte_val c) =? 0) eqn:Hsp; cbn [negb].
  - rewrite (TrimSpace_stop_ascii _ Hascii _ (le_n _)).
    rewrite firstn_all. reflexivity.
  - apply IH. exact (Forall_inv_tail Hascii).
Qed.

(** What is left has no ASCII space at its front. *)
Lemma drop_spaces_head (s : bytes) (b : byte) (rest : bytes) :
  drop_spaces s = b :: rest -> is_ascii_space b = false.
Proof.
  induction s as [|c s IH]; cbn; [discriminate|].
  destruct (is_ascii_space c) eqn:Hc; [exact IH|].
  intros [= <- _]. exact Hc.
Qed.

(** [strings.TrimSpace] and UTF-8: a no-break space (C2 A0) and an
    ideographic space (E3 80 80) are white space, a lone continuation byte
    is not. *)
Example TrimSpace_unicode :
  strings.TrimSpace_start
    [xc2; xa0; "a"%byte; xe3; x80; x80; " "%byte] = ["a"%byte]
  /\ strings.TrimSpace_start [" "%byte; x80; " "%byte] = [x80]
  /\ strings.TrimSpace_start
       [" "%byte; xe2; x80; x83; "a"%byte; xc3; xa9; " "%byte; xc2; x85]
     = ["a"%byte; xc3; xa9].
Proof. repeat split; vm_compute; reflexivity. Qed.

(** The scenario of the tests: "secret " is trimmed to "secret". *)
Example TrimSpace_secret : strings.TrimSpace "secret " = "secret"%string.
Proof. vm_compute. reflexivity. Qed.

Local Close Scope Z_scope.

(** [aws.StringMap] keeps every binding. *)
Lemma StringMap_id (src : gmap string string) : aws.StringMap src = src.
Proof.
  unfold aws.StringMap.
  apply (map_fold_weak_ind (fun dst m => dst = m)); [reflexivity|].
  intros i x m r _ ->. reflexivity.
Qed.

(** [[]byte(string(b))] is [b]. *)
Lemma bytes_of_string_of_bytes (b : bytes) :
  list_byte_of_string (string_of_list_byte b) = b.
Proof. apply list_byte_of_string_of_list_byte. Qed.

(* ------------------------------------------------------------------ *)
(** ** The runs of [Get] and [Set] *)

Section Properties.

Context {Store : Type} (E : Collaborators Store).

Implicit Types (a : awsKMS Store) (w : World E).
Implicit Types (key : string) (val cipherText : bytes).
Implicit Types (e : error).

(** One step of a run. *)
Lemma run_Do {A X : Type} (c : Call Store X) (k : X -> Prog Store A) w :
  run E (Do c k) w =
  let o := run E (k (fst (handle E c w))) (snd (handle E c w)) in
  {| result := result o; final := final o;
     trace := event_of c :: trace o |}.
Proof. simpl. destruct (handle E c w). reflexivity. Qed.

(** A run of a sequence is the run of its first part followed by the run
    of the rest. *)
Lemma run_bind {A B : Type} (p : Prog Store A) (f : A -> Prog Store B) w :
  run E (bind p f) w =
  let o1 := run E p w in
  let o2 := run E (f (result o1)) (final o1) in
  {| result := result o2; final := final o2;
     trace := trace o1 ++ trace o2 |}.
Proof.
  revert w. induction p as [x|X c k IH]; intros w.
  - simpl. destruct (run E (f x) w). reflexivity.
  - simpl. destruct (handle E c w) as [x w']. rewrite IH. reflexivity.
Qed.

(** The run of [decrypt], case by case. *)
Lemma run_decrypt a cipherText w :
  run E (decrypt a cipherText) w =
  let input := DecryptRequest a cipherText in
  let '(out, err, ks) := kms_Decrypt_in w (kmsService a) input in
  {| result :=
       match err with
       | Some e =>
           ([], Some (errors.withMessage e
                        "failed to decrypt with KMS client"))
       | None => (trimmed (kms.DecryptOutput_Plaintext out), None)
       end;
     final := with_kms w ks;
     trace := [EvKmsDecrypt (kmsService a) input] |}.
Proof.
  unfold decrypt, kms_Decrypt_in, DecryptRequest, trimmed. cbn.
  destruct (kms_Decrypt E _ _ _) as [[out [e|]] ks]; reflexivity.
Qed.

(** The run of [encrypt], case by case. *)
Lemma run_encrypt a val w :
  run E (encrypt a val) w =
  let input := EncryptRequest a val in
  let '(out, err, ks) := kms_Encrypt_in w (kmsService a) input in
  {| result :=
       match err with
       | Some e =>
           ([], Some (errors.withMessage e
                        "failed to encrypt with KMS client"))
       | None => (kms.EncryptOutput_CiphertextBlob out, None)
       end;
     final := with_kms w ks;
     trace := [EvKmsEncrypt (kmsService a) input] |}.
Proof.
  unfold encrypt, kms_Encrypt_in, EncryptRequest. cbn.
  destruct (kms_Encrypt E _ _ _) as [[out [e|]] ks]; reflexivity.
Qed.

(** The run of [Get], case by case. *)
Lemma run_Get a key w :
  run E (Get a key) w =
  let '(cipherText, err, ss) := store_Get_in w (store a) key in
  match err with
  | Some e =>
      {| result := ([], Some (errors.withMessage e
                                "failed to get data for KMS client"));
         final := with_store w ss;
         trace := [EvStoreGet (store a) key] |}
  | None =>
      let o := run E (decrypt a cipherText) (with_store w ss) in
      {| result := result o; final := final o;
         trace := EvStoreGet (store a) key :: trace o |}
  end.
Proof.
  unfold Get, store_Get_in. cbn.
  destruct (store_Get E _ _ _) as [[cipherText [e|]] ss]; reflexivity.
Qed.

(** The run of [Set], case by case. *)
Lemma run_Set a key val w :
  run E (Set_ a key val) w =
  let o := run E (encrypt a val) w in
  match snd (result o) with
  | Some e =>
      {| result := Some e; final := final o; trace := trace o |}
  | None =>
      let '(err, ss) :=
        store_Set_in (final o) (store a) key (fst (result o)) in
      {| result := err; final := with_store (final o) ss;
         trace := trace o ++ [EvStoreSet (store a) key (fst (result o))] |}
  end.
Proof.
  unfold Set_. change (mbind ?f ?p) with (bind p f). rewrite run_bind.
  cbn zeta. destruct (run E (encrypt a val) w) as [[ct [e|]] w' tr]; cbn.
  - rewrite app_nil_r. reflexivity.
  - unfold store_Set_in.
    destruct (store_Set E _ _ _ _) as [err ss]. reflexivity.
Qed.

(** *** Closed forms of the runs, one per way a run can go *)

Lemma run_Get_store_error a key w cipherText e ss :
  store_Get_in w (store a) key = (cipherText, Some e, ss) ->
  run E (Get a key) w =
  {| result := ([], Some (errors.withMessage e
                            "failed to get data for KMS client"));
     final := with_store w ss;
     trace := [EvStoreGet (store a) key] |}.
Proof. intros H. rewrite run_Get, H. reflexivity. Qed.

Lemma run_Get_decrypt_error a key w cipherText ss out e ks :
  store_Get_in w (store a) key = (cipherText, None, ss) ->
  kms_Decrypt_in (with_store w ss) (kmsService a)
    (DecryptRequest a cipherText) = (out, Some e, ks) ->
  run E (Get a key) w =
  {| result := ([], Some (errors.withMessage e
                            "failed to decrypt with KMS client"));
     final := with_kms (with_store w ss) ks;
     trace := [EvStoreGet (store a) key;
               EvKmsDecrypt (kmsService a) (DecryptRequest a cipherText)] |}.
Proof.
  intros Hget Hdec. rewrite run_Get, Hget, run_decrypt. cbn zeta.
  rewrite Hdec. reflexivity.
Qed.

Lemma run_Get_ok a key w cipherText ss out ks :
  store_Get_in w (store a) key = (cipherText, None, ss) ->
  kms_Decrypt_in (with_store w ss) (kmsService a)
    (DecryptRequest a cipherText) = (out, None, ks) ->
  run E (Get a key) w =
  {| result := (trimmed (kms.DecryptOutput_Plaintext out), None);
     final := with_kms (with_store w ss) ks;
     trace := [EvStoreGet (store a) key;
               EvKmsDecrypt (kmsService a) (DecryptRequest a cipherText)] |}.
Proof.
  intros Hget Hdec. rewrite run_Get, Hget, run_decrypt. cbn zeta.
  rewrite Hdec. reflexivity.
Qed.

Lemma run_Set_encrypt_error a key val w out e ks :
  kms_Encrypt_in w (kmsService a) (EncryptRequest a val)
    = (out, Some e, ks) ->
  run E (Set_ a key val) w =
  {| result := Some (errors.withMessage e
                       "failed to encrypt with KMS client");
     final := with_kms w ks;
     trace := [EvKmsEncrypt (kmsService a) (EncryptRequest a val)] |}.
Proof.
  intros Henc. rewrite run_Set, run_encrypt. cbn zeta.
  rewrite Henc. reflexivity.
Qed.

Lemma run_Set_encrypt_ok a key val w out ks :
  kms_Encrypt_in w (kmsService a) (EncryptRequest a val)
    = (out, None, ks) ->
  run E (Set_ a key val) w =
  let '(err, ss) :=
    store_Set_in (with_kms w ks) (store a) key
      (kms.EncryptOutput_CiphertextBlob out) in
  {| result := err;
     final := with_store (with_kms w ks) ss;
     trace := [EvKmsEncrypt (kmsService a) (EncryptRequest a val);
               EvStoreSet (store a) key
                 (kms.EncryptOutput_CiphertextBlob out)] |}.
Proof.
  intros Henc. rewrite run_Set, run_encrypt. cbn zeta.
  rewrite Henc. cbn.
  destruct (store_Set_in _ _ _ _) as [err ss]. reflexivity.
Qed.

(* ---------------------------------------------------------------- *)
(** *** Construction *)

(** C2. For every session, inner store and encryption context,
    [NewWithSession] with the empty key identifier returns no store and
    the configuration error whose message quotes the (empty) identifier;
    with any other key identifier it returns the store and no error. *)
Theorem NewWithSession_validates_kmsID
    (sess : session.Session) (s : Store) (keyID : string)
    (ctx : gmap string string) :
  (keyID = "" ->
     NewWithSession sess s keyID ctx
     = (None, Some (errors.fundamental "invalid kmsID specified: ''")))
  /\ (keyID <> "" ->
      NewWithSession sess s keyID ctx
      = (Some {| store := s; kmsService := kms.New sess; kmsID := keyID;
                 encryptionContext := ctx |}, None)).
Proof.
  unfold NewWithSession. split.
  - intros ->. reflexivity.
  - intros Hne. destruct (String.eqb_spec keyID "") as [->|_]; [done|].
    rewrite StringMap_id. reflexivity.
Qed.

(* ---------------------------------------------------------------- *)
(** *** Failures *)

(** C3. If the remote encrypt call fails, [Set] returns an error, the
    inner store's [Set] is not called and the state of the inner store is
    as it was. *)
Theorem Set_encrypt_failure_leaves_store a key val w out e ks :
  kms_Encrypt_in w (kmsService a) (EncryptRequest a val)
    = (out, Some e, ks) ->
  let o := run E (Set_ a key val) w in
  result o = Some (errors.withMessage e "failed to encrypt with KMS client")
  /\ (forall (s : Store) k v, EvStoreSet s k v ∉ trace o)
  /\ store_state (final o) = store_state w.
Proof.
  intros Henc o. subst o. rewrite (run_Set_encrypt_error _ _ _ _ _ _ _ Henc).
  cbn. split; [reflexivity|]. split; [|reflexivity].
  intros s k v Hin. apply list_elem_of_singleton in Hin. discriminate.
Qed.

(** C4. If the inner store's [Get] fails, the decorator's [Get] returns
    that failure wrapped and no value, and makes no decrypt call; in any
    run of [Get], a decrypt call is made only when the inner store's
    [Get] returned without error. *)
Theorem Get_store_failure_no_decrypt a key w :
  (forall cipherText e ss,
     store_Get_in w (store a) key = (cipherText, Some e, ss) ->
     let o := run E (Get a key) w in
     result o = ([], Some (errors.withMessage e
                             "failed to get data for KMS client"))
     /\ forall c input, EvKmsDecrypt c input ∉ trace o)
  /\ (forall c input,
       EvKmsDecrypt c input ∈ trace (run E (Get a key) w) ->
       snd (fst (store_Get_in w (store a) key)) = None).
Proof.
  split.
  - intros cipherText e ss Hget o. subst o.
    rewrite (run_Get_store_error _ _ _ _ _ _ Hget). cbn.
    split; [reflexivity|].
    intros c input Hin. apply list_elem_of_singleton in Hin. discriminate.
  - intros c input Hin.
    destruct (store_Get_in w (store a) key) as [[cipherText [e|]] ss] eqn:Hget;
      [|reflexivity].
    rewrite (run_Get_store_error _ _ _ _ _ _ Hget) in Hin. cbn in Hin.
    apply list_elem_of_singleton in Hin. discriminate.
Qed.

(** C6, as the code has it. A failing [Get] or [Set] returns the
    underlying failure wrapped with the message of the stage that failed:
    "failed to get data for KMS client" when the inner store's [Get]
    fails, "failed to decrypt with KMS client" when the remote decrypt
    fails and "failed to encrypt with KMS client" when the remote encrypt
    fails. *)
Theorem failure_context_messages a key val w :
  (forall cipherText e ss,
     store_Get_in w (store a) key = (cipherText, Some e, ss) ->
     snd (result (run E (Get a key) w))
     = Some (errors.withMessage e "failed to get data for KMS client"))
  /\ (forall cipherText ss out e ks,
       store_Get_in w (store a) key = (cipherText, None, ss) ->
       kms_Decrypt_in (with_store w ss) (kmsService a)
         (DecryptRequest a cipherText) = (out, Some e, ks) ->
       snd (result (run E (Get a key) w))
       = Some (errors.withMessage e "failed to decrypt with KMS client"))
  /\ (forall out e ks,
       kms_Encrypt_in w (kmsService a) (EncryptRequest a val)
         = (out, Some e, ks) ->
       result (run E (Set_ a key val) w)
       = Some (errors.withMessage e "failed to encrypt with KMS client")).
Proof.
  split; [|split].
  - intros cipherText e ss Hget.
    rewrite (run_Get_store_error _ _ _ _ _ _ Hget). reflexivity.
  - intros cipherText ss out e ks Hget Hdec.
    rewrite (run_Get_decrypt_error _ _ _ _ _ _ _ _ Hget Hdec). reflexivity.
  - intros out e ks Henc.
    rewrite (run_Set_encrypt_error _ _ _ _ _ _ _ Henc). reflexivity.
Qed.

(** C7. When the remote encrypt call succeeds, [Set] returns what the
    inner store's [Set] returns for the key and the ciphertext, be it an
    error or none, and leaves the inner store as that call left it. *)
Theorem Set_returns_store_result a key val w out ks :
  kms_Encrypt_in w (kmsService a) (EncryptRequest a val)
    = (out, None, ks) ->
  let o := run E (Set_ a key val) w in
  let r := store_Set_in w (store a) key
             (kms.EncryptOutput_CiphertextBlob out) in
  result o = fst r /\ store_state (final o) = snd r.
Proof.
  intros Henc o r. subst o r.
  rewrite (run_Set_encrypt_ok _ _ _ _ _ _ Henc).
  unfold store_Set_in. cbn.
  destruct (store_Set E _ _ _ _) as [err ss]. split; reflexivity.
Qed.

(* ---------------------------------------------------------------- *)
(** *** Success *)



(* ---------------------------------------------------------------- *)
(** *** What is sent to the collaborators *)

(** C8. For a decorator made by [NewWithSession], every encrypt request
    and every decrypt request made by [Get] or [Set] carries the
    encryption context given at construction and an empty list of grant
    tokens; an encrypt request carries the configured key identifier
    too. *)
Theorem requests_carry_configuration
    (sess : session.Session) (s : Store) (keyID : string)
    (ctx : gmap string string) a key val w (ev : Event Store) :
  NewWithSession sess s keyID ctx = (Some a, None) ->
  ev ∈ trace (run E (Get a key) w) \/ ev ∈ trace (run E (Set_ a key val) w) ->
  match ev with
  | EvKmsEncrypt c input =>
      kms.EncryptInput_EncryptionContext input = ctx
      /\ kms.EncryptInput_GrantTokens input = []
      /\ kms.EncryptInput_KeyId input = Some keyID
  | EvKmsDecrypt c input =>
      kms.DecryptInput_EncryptionContext input = ctx
      /\ kms.DecryptInput_GrantTokens input = []
  | EvStoreGet _ _ | EvStoreSet _ _ _ => True
  end.
Proof.
  intros Hnew Hin. unfold NewWithSession in Hnew.
  destruct (String.eqb keyID ""); [discriminate|].
  rewrite StringMap_id in Hnew. injection Hnew as <-.
  destruct Hin as [Hin|Hin].
  - rewrite run_Get in Hin.
    destruct (store_Get_in w _ key) as [[cipherText [e|]] ss].
    + apply list_elem_of_singleton in Hin. subst ev. exact I.
    + cbn beta iota zeta in Hin. rewrite run_decrypt in Hin.
        cbn beta iota zeta in Hin.
      destruct (kms_Decrypt_in _ _ _) as [[out err] ks]. cbn in Hin.
      apply elem_of_cons in Hin as [->|Hin]; [exact I|].
      apply list_elem_of_singleton in Hin. subst ev. cbn. auto.
  - rewrite run_Set, run_encrypt in Hin. cbn zeta in Hin.
    destruct (kms_Encrypt_in w _ _) as [[out [e|]] ks]; cbn in Hin.
    + apply list_elem_of_singleton in Hin. subst ev. cbn. auto.
    + destruct (store_Set_in _ _ _ _) as [err ss]. cbn in Hin.
      apply elem_of_cons in Hin as [->|Hin]; [cbn; auto|].
      apply list_elem_of_singleton in Hin. subst ev. exact I.
Qed.

(** C9. The ciphertext goes through as it is, whatever its bytes: when
    the remote encrypt call succeeds, [Set] makes that call and then
    stores exactly the bytes it returned; when the inner store's [Get]
    succeeds, [Get] makes that call and then submits exactly the bytes it
    returned to the remote decrypt call. *)
Theorem ciphertext_passed_verbatim a key val w :
  (forall out ks,
     kms_Encrypt_in w (kmsService a) (EncryptRequest a val)
       = (out, None, ks) ->
     trace (run E (Set_ a key val) w)
     = [EvKmsEncrypt (kmsService a) (EncryptRequest a val);
        EvStoreSet (store a) key (kms.EncryptOutput_CiphertextBlob out)])
  /\ (forall cipherText ss,
       store_Get_in w (store a) key = (cipherText, None, ss) ->
       exists input,
         trace (run E (Get a key) w)
         = [EvStoreGet (store a) key; EvKmsDecrypt (kmsService a) input]
         /\ kms.DecryptInput_CiphertextBlob input = cipherText).
Proof.
  split.
  - intros out ks Henc. rewrite (run_Set_encrypt_ok _ _ _ _ _ _ Henc).
    destruct (store_Set_in _ _ _ _) as [err ss]. reflexivity.
  - intros cipherText ss Hget. exists (DecryptRequest a cipherText).
    split; [|reflexivity].
    rewrite run_Get, Hget, run_decrypt. cbn zeta.
    destruct (kms_Decrypt_in _ _ _) as [[out err] ks]. reflexivity.
Qed.

(** C10. The key is not validated: for every key, the empty string
    included, [Get] starts by calling the inner store's [Get] with that
    key, [Set] calls the inner store's [Set] with that key once the
    remote encrypt call has succeeded, no call to the inner store carries
    another key, and neither operation fails while its two collaborators
    succeed. *)
Theorem key_passed_unvalidated a key val w :
  (exists rest,
     trace (run E (Get a key) w) = EvStoreGet (store a) key :: rest)
  /\ (forall out ks,
       kms_Encrypt_in w (kmsService a) (EncryptRequest a val)
         = (out, None, ks) ->
       EvStoreSet (store a) key (kms.EncryptOutput_CiphertextBlob out)
         ∈ trace (run E (Set_ a key val) w))
  /\ (forall ev,
       ev ∈ trace (run E (Get a key) w)
       \/ ev ∈ trace (run E (Set_ a key val) w) ->
       match ev with
       | EvStoreGet s k | EvStoreSet s k _ => s = store a /\ k = key
       | EvKmsDecrypt _ _ | EvKmsEncrypt _ _ => True
       end)
  /\ (forall cipherText ss out ks,
       store_Get_in w (store a) key = (cipherText, None, ss) ->
       kms_Decrypt_in (with_store w ss) (kmsService a)
         (DecryptRequest a cipherText) = (out, None, ks) ->
       snd (result (run E (Get a key) w)) = None)
  /\ (forall out ks ss,
       kms_Encrypt_in w (kmsService a) (EncryptRequest a val)
         = (out, None, ks) ->
       store_Set_in w (store a) key (kms.EncryptOutput_CiphertextBlob out)
         = (None, ss) ->
       result (run E (Set_ a key val) w) = None).
Proof.
  split; [|split; [|split; [|split]]].
  - rewrite run_Get.
    destruct (store_Get_in w _ key) as [[cipherText [e|]] ss]; eauto.
  - intros out ks Henc. rewrite (run_Set_encrypt_ok _ _ _ _ _ _ Henc).
    destruct (store_Set_in _ _ _ _) as [err ss]. cbn.
    apply elem_of_cons. right. apply list_elem_of_singleton. reflexivity.
  - intros ev [Hin|Hin].
    + rewrite run_Get in Hin.
      destruct (store_Get_in w _ key) as [[cipherText [e|]] ss].
      * apply list_elem_of_singleton in Hin. subst ev. auto.
      * cbn beta iota zeta in Hin. rewrite run_decrypt in Hin.
        cbn beta iota zeta in Hin.
        destruct (kms_Decrypt_in _ _ _) as [[out err] ks]. cbn in Hin.
        apply elem_of_cons in Hin as [->|Hin]; [auto|].
        apply list_elem_of_singleton in Hin. subst ev. exact I.
    + rewrite run_Set, run_encrypt in Hin. cbn zeta in Hin.
      destruct (kms_Encrypt_in w _ _) as [[out [e|]] ks]; cbn in Hin.
      * apply list_elem_of_singleton in Hin. subst ev. exact I.
      * destruct (store_Set_in _ _ _ _) as [err ss]. cbn in Hin.
        apply elem_of_cons in Hin as [->|Hin]; [exact I|].
        apply list_elem_of_singleton in Hin. subst ev. auto.
  - intros cipherText ss out ks Hget Hdec.
    rewrite (run_Get_ok _ _ _ _ _ _ _ Hget Hdec). reflexivity.
  - intros out ks ss Henc Hset.
    rewrite (run_Set_encrypt_ok _ _ _ _ _ _ Henc).
    unfold store_Set_in in *. cbn. rewrite Hset. reflexivity.
Qed.

End Properties.

(* ------------------------------------------------------------------ *)
(** ** The properties at work on the test doubles *)

Module fake_facts.

Import fake.

Lemma Decrypt_inverts_Encrypt (c : kms.KMS) (ctx : gmap string string) :
  decrypt_inverts_encrypt collaborators c "alias/test-key" ctx.
Proof.
  intros plainText ks ks1 out Henc. cbn in Henc.
  injection Henc as <- <-.
  eexists _, _. split; [reflexivity|]. cbn. apply rev_involutive.
Qed.

Lemma Get_returns_last_Set : get_returns_last_set collaborators Writable.
Proof.
  intros key val ss ss1 Hset. cbn in Hset. injection Hset as <-.
  exists (<[key := val]> ss). cbn. unfold memGet.
  rewrite lookup_insert_eq. reflexivity.
Qed.

End fake_facts.

Import fake fake_facts.

Lemma NewWithSession_validates_kmsID_witness :
  NewWithSession fake.sess fake.Writable "" no_context
  = (None, Some (errors.fundamental "invalid kmsID specified: ''"))
  /\ NewWithSession fake.sess fake.Writable "alias/test-key" no_context
     = (Some good, None).
Proof.
  split.
  - apply (proj1 (NewWithSession_validates_kmsID
                    fake.sess fake.Writable "" no_context)).
    reflexivity.
  - apply (proj2 (NewWithSession_validates_kmsID
                    fake.sess fake.Writable "alias/test-key" no_context)).
    discriminate.
Defined.

Lemma Set_encrypt_failure_leaves_store_witness :
  result (run fake.collaborators (Set_ unknown_key "password" secret)
            fake.world0)
  = Some (errors.withMessage (errors.fundamental "NotFoundException")
            "failed to encrypt with KMS client")
  /\ (forall (s : fake.Store) k v,
        EvStoreSet s k v
          ∉ trace (run fake.collaborators (Set_ unknown_key "password" secret)
                     fake.world0))
  /\ store_state (final (run fake.collaborators
                           (Set_ unknown_key "password" secret) fake.world0))
     = no_data.
Proof.
  apply (Set_encrypt_failure_leaves_store fake.collaborators
           unknown_key "password" secret fake.world0
           {| kms.EncryptOutput_KeyId := None;
              kms.EncryptOutput_CiphertextBlob := [] |}
           (errors.fundamental "NotFoundException") 1).
  reflexivity.
Defined.

Lemma Get_store_failure_no_decrypt_witness :
  result (run fake.collaborators (Get good "password") fake.world0)
  = ([], Some (errors.withMessage (errors.fundamental "key not found")
                 "failed to get data for KMS client"))
  /\ forall c input,
       EvKmsDecrypt c input
         ∉ trace (run fake.collaborators (Get good "password") fake.world0).
Proof.
  apply (proj1 (Get_store_failure_no_decrypt fake.collaborators
                  good "password" fake.world0)
           [] (errors.fundamental "key not found") no_data).
  reflexivity.
Defined.



(** C6, as the claim words it, fails at each of the three stages. With
    nothing stored under "password" the inner store's [Get] fails; with
    bytes that are no ciphertext stored there the remote decrypt fails;
    with a key identifier unknown to the service the remote encrypt fails.
    In none of the three runs is the error returned the failure wrapped
    with the message that says "key-management client". *)
Lemma failure_context_spec_wording_counterexample :
  (store_Get_in fake.world0 (store good) "password"
   = ([], Some (errors.fundamental "key not found"), no_data)
   /\ snd (result (run fake.collaborators (Get good "password") fake.world0))
      <> Some (errors.withMessage (errors.fundamental "key not found")
                 "failed to get data for key-management client"))
  /\ (snd (fst (kms_Decrypt_in world_garbage (kmsService good)
                  (DecryptRequest good (list_byte_of_string "plain"))))
      = Some (errors.fundamental "InvalidCiphertextException")
      /\ snd (result (run fake.collaborators (Get good "password")
                        world_garbage))
         <> Some (errors.withMessage
                    (errors.fundamental "InvalidCiphertextException")
                    "failed to decrypt with key-management client"))
  /\ (snd (fst (kms_Encrypt_in fake.world0 (kmsService unknown_key)
                  (EncryptRequest unknown_key secret)))
      = Some (errors.fundamental "NotFoundException")
      /\ result (run fake.collaborators (Set_ unknown_key "password" secret)
                   fake.world0)
         <> Some (errors.withMessage (errors.fundamental "NotFoundException")
                    "failed to encrypt with key-management client")).
Proof.
  repeat split; try reflexivity; vm_compute; discriminate.
Qed.

Lemma failure_context_messages_witness :
  snd (result (run fake.collaborators (Get good "password") fake.world0))
  = Some (errors.withMessage (errors.fundamental "key not found")
            "failed to get data for KMS client")
  /\ snd (result (run fake.collaborators (Get good "password") world_garbage))
     = Some (errors.withMessage
               (errors.fundamental "InvalidCiphertextException")
               "failed to decrypt with KMS client")
  /\ result (run fake.collaborators (Set_ unknown_key "password" secret)
               fake.world0)
     = Some (errors.withMessage (errors.fundamental "NotFoundException")
               "failed to encrypt with KMS client").
Proof.
  split; [|split].
  - apply (proj1 (failure_context_messages fake.collaborators
                    good "password" secret fake.world0)
             [] (errors.fundamental "key not found") no_data).
    reflexivity.
  - apply (proj1 (proj2 (failure_context_messages fake.collaborators
                           good "password" secret world_garbage))
             (list_byte_of_string "plain")
             (<["password" := list_byte_of_string "plain"]> no_data)
             {| kms.DecryptOutput_KeyId := None;
                kms.DecryptOutput_Plaintext := [] |}
             (errors.fundamental "InvalidCiphertextException") 1).
    + vm_compute. reflexivity.
    + vm_compute. reflexivity.
  - apply (proj2 (proj2 (failure_context_messages fake.collaborators
                           unknown_key "password" secret fake.world0))
             {| kms.EncryptOutput_KeyId := None;
                kms.EncryptOutput_CiphertextBlob := [] |}
             (errors.fundamental "NotFoundException") 1).
    reflexivity.
Defined.

Lemma Set_returns_store_result_witness :
  result (run fake.collaborators (Set_ read_only "password" secret)
            fake.world0)
  = Some (errors.fundamental "store is read-only")
  /\ store_state (final (run fake.collaborators
                           (Set_ read_only "password" secret) fake.world0))
     = no_data.
Proof.
  apply (Set_returns_store_result fake.collaborators
           read_only "password" secret fake.world0
           {| kms.EncryptOutput_KeyId := Some "alias/test-key"%string;
              kms.EncryptOutput_CiphertextBlob := x01 :: rev secret |} 1).
  reflexivity.
Defined.

Lemma requests_carry_configuration_witness :
  NewWithSession fake.sess fake.Writable "alias/test-key" no_context
  = (Some good, None)
  /\ (kms.EncryptInput_EncryptionContext (EncryptRequest good secret)
      = no_context
      /\ kms.EncryptInput_GrantTokens (EncryptRequest good secret) = []
      /\ kms.EncryptInput_KeyId (EncryptRequest good secret)
         = Some "alias/test-key"%string)
  /\ (kms.DecryptInput_EncryptionContext
        (DecryptRequest good (x01 :: rev secret)) = no_context
      /\ kms.DecryptInput_GrantTokens
           (DecryptRequest good (x01 :: rev secret)) = []).
Proof.
  split; [reflexivity|]. split.
  - apply (requests_carry_configuration fake.collaborators
             fake.sess fake.Writable "alias/test-key" no_context
             good "password" secret fake.world0
             (EvKmsEncrypt (kmsService good) (EncryptRequest good secret))).
    + reflexivity.
    + right. apply list_elem_of_here.
  - apply (requests_carry_configuration fake.collaborators
             fake.sess fake.Writable "alias/test-key" no_context
             good "password" secret world1
             (EvKmsDecrypt (kmsService good)
                (DecryptRequest good (x01 :: rev secret)))).
    + reflexivity.
    + left. apply list_elem_of_further, list_elem_of_here.
Defined.

Lemma ciphertext_passed_verbatim_witness :
  trace (run fake.collaborators (Set_ good "password" secret) fake.world0)
  = [EvKmsEncrypt (kmsService good) (EncryptRequest good secret);
     EvStoreSet fake.Writable "password" (x01 :: rev secret)]
  /\ exists input,
       trace (run fake.collaborators (Get good "password") world1)
       = [EvStoreGet fake.Writable "password";
          EvKmsDecrypt (kmsService good) input]
       /\ kms.DecryptInput_CiphertextBlob input = x01 :: rev secret.
Proof.
  split.
  - apply (proj1 (ciphertext_passed_verbatim fake.collaborators
                    good "password" secret fake.world0)
             {| kms.EncryptOutput_KeyId := Some "alias/test-key"%string;
                kms.EncryptOutput_CiphertextBlob := x01 :: rev secret |} 1).
    reflexivity.
  - apply (proj2 (ciphertext_passed_verbatim fake.collaborators
                    good "password" secret world1)
             (x01 :: rev secret)
             (<["password" := x01 :: rev secret]> no_data)).
    vm_compute. reflexivity.
Defined.

Lemma key_passed_unvalidated_witness :
  (exists rest,
     trace (run fake.collaborators (Get good "") fake.world0)
     = EvStoreGet fake.Writable "" :: rest)
  /\ EvStoreSet fake.Writable "" (x01 :: rev secret)
       ∈ trace (run fake.collaborators (Set_ good "" secret) fake.world0)
  /\ result (run fake.collaborators (Set_ good "" secret) fake.world0) = None.
Proof.
  pose proof (key_passed_unvalidated fake.collaborators
                good "" secret fake.world0) as (Hget & Hset & _ & _ & Hok).
  split; [exact Hget|]. split.
  - apply (Hset {| kms.EncryptOutput_KeyId := Some "alias/test-key"%string;
                   kms.EncryptOutput_CiphertextBlob := x01 :: rev secret |} 1).
    reflexivity.
  - apply (Hok {| kms.EncryptOutput_KeyId := Some "alias/test-key"%string;
                  kms.EncryptOutput_CiphertextBlob := x01 :: rev secret |} 1
               (<["" := x01 :: rev secret]> no_data)).
    + reflexivity.
    + reflexivity.
Defined.

(* ------------------------------------------------------------------ *)
(** ** More about trimming *)

(** [[]byte(strings.TrimSpace(string(b)))], on the bytes themselves. *)
Lemma trimmed_TrimSpace_start (b : bytes) :
  trimmed b = strings.TrimSpace_start b.
Proof.
  unfold trimmed, strings.TrimSpace.
  rewrite !list_byte_of_string_of_list_byte. reflexivity.
Qed.

Lemma part_of_refl (s : bytes) : part_of s s.
Proof. exists [], []. rewrite app_nil_r. reflexivity. Qed.

Lemma part_of_nil (s : bytes) : part_of [] s.
Proof. exists [], s. reflexivity. Qed.

Lemma part_of_trans (r s t : bytes) : part_of r s -> part_of s t -> part_of r t.
Proof.
  intros (p1 & q1 & ->) (p2 & q2 & ->).
  exists (p2 ++ p1), (q1 ++ q2). rewrite <- !app_assoc. reflexivity.
Qed.

Lemma part_of_cons (r : bytes) (b : byte) (s : bytes) :
  part_of r s -> part_of r (b :: s).
Proof. intros (p & q & ->). exists (b :: p), q. reflexivity. Qed.

(** A slice is a part of the string, whatever the bounds. *)
Lemma slice_part_of (s : bytes) (lo hi : Z) : part_of (slice s lo hi) s.
Proof.
  unfold slice.
  exists (take (Z.to_nat lo) s),
         (drop (Z.to_nat (hi - lo)) (drop (Z.to_nat lo) s)).
  rewrite take_drop, take_drop. reflexivity.
Qed.

Lemma TrimLeftFunc_part_of (s : bytes) (f : Z -> bool) :
  part_of (strings.TrimLeftFunc s f) s.
Proof.
  unfold strings.TrimLeftFunc.
  destruct (_ =? _)%Z; [apply part_of_nil|apply slice_part_of].
Qed.

Lemma TrimRightFunc_part_of (s : bytes) (f : Z -> bool) :
  part_of (strings.TrimRightFunc s f) s.
Proof. unfold strings.TrimRightFunc. apply slice_part_of. Qed.

Lemma TrimFunc_part_of (s : bytes) (f : Z -> bool) :
  part_of (strings.TrimFunc s f) s.
Proof.
  unfold strings.TrimFunc.
  eapply part_of_trans; [apply TrimRightFunc_part_of|apply TrimLeftFunc_part_of].
Qed.

Lemma TrimSpace_stop_part_of (s : bytes) (stop : nat) :
  part_of (strings.TrimSpace_stop s stop) s.
Proof.
  induction stop as [|stop IH]; cbn [strings.TrimSpace_stop].
  - apply part_of_nil.
  - destruct (_ <=? _)%Z.
    + eapply part_of_trans; [apply TrimRightFunc_part_of|apply slice_part_of].
    + destruct (_ =? _)%Z; [apply slice_part_of|exact IH].
Qed.

(** [strings.TrimSpace] only cuts at the two ends: what it returns is a
    run of consecutive bytes of its argument, for any bytes at all. *)
Lemma TrimSpace_start_part_of (s : bytes) :
  part_of (strings.TrimSpace_start s) s.
Proof.
  induction s as [|c s IH]; cbn [strings.TrimSpace_start].
  - apply part_of_nil.
  - destruct (_ <=? _)%Z; [apply TrimFunc_part_of|].
    destruct (_ =? _)%Z; [apply TrimSpace_stop_part_of|].
    apply part_of_cons, IH.
Qed.

Lemma part_of_length (r s : bytes) : part_of r s -> length r <= length s.
Proof. intros (p & q & ->). rewrite !length_app. lia. Qed.

Lemma part_of_is_ascii (r s : bytes) : part_of r s -> is_ascii s -> is_ascii r.
Proof.
  unfold is_ascii. intros (p & q & ->) H.
  apply Forall_app in H as [_ H]. apply Forall_app in H as [H _]. exact H.
Qed.

(** *** Trimming ASCII text *)

Lemma drop_spaces_split (s : bytes) :
  exists pre : bytes, s = pre ++ drop_spaces s /\ all_ascii_space pre.
Proof.
  induction s as [|b s (pre & Hs & Hpre)]; cbn [drop_spaces].
  - exists []. split; [reflexivity|constructor].
  - destruct (is_ascii_space b) eqn:Hb.
    + exists (b :: pre). split; [cbn; congruence|constructor; assumption].
    + exists []. split; [reflexivity|constructor].
Qed.

Lemma drop_spaces_starts (s : bytes) :
  starts_with_space (drop_spaces s) = false.
Proof.
  destruct (drop_spaces s) as [|b rest] eqn:Hd; [reflexivity|].
  cbn. exact (drop_spaces_head _ _ _ Hd).
Qed.

Lemma drop_spaces_id (s : bytes) :
  starts_with_space s = false -> drop_spaces s = s.
Proof. destruct s as [|b s]; cbn; [reflexivity|]. intros ->. reflexivity. Qed.

Lemma drop_spaces_all (s : bytes) : all_ascii_space s -> drop_spaces s = [].
Proof.
  induction 1 as [|b s Hb _ IH]; cbn; [reflexivity|]. rewrite Hb. exact IH.
Qed.

Lemma all_ascii_space_rev (s : bytes) :
  all_ascii_space s -> all_ascii_space (rev s).
Proof.
  unfold all_ascii_space. rewrite !Forall_forall. intros H b Hb.
  apply H. apply list_elem_of_In. apply list_elem_of_In, in_rev in Hb.
  exact Hb.
Qed.

(** Trimming cuts white space only. *)
Lemma trim_ascii_space_split (s : bytes) :
  exists pre post : bytes,
    s = pre ++ trim_ascii_space s ++ post
    /\ all_ascii_space pre /\ all_ascii_space post.
Proof.
  unfold trim_ascii_space.
  destruct (drop_spaces_split s) as (pre & Hs & Hpre).
  destruct (drop_spaces_split (rev (drop_spaces s))) as (q & Hq & Hqsp).
  exists pre, (rev q). split; [|split].
  - rewrite Hs at 1. f_equal.
    rewrite <- rev_app_distr, <- Hq, rev_involutive. reflexivity.
  - exact Hpre.
  - apply all_ascii_space_rev, Hqsp.
Qed.

(** What trimming leaves neither begins nor ends with white space. *)
Lemma trim_ascii_space_ends (s : bytes) :
  starts_with_space (trim_ascii_space s) = false
  /\ ends_with_space (trim_ascii_space s) = false.
Proof.
  unfold trim_ascii_space, ends_with_space. split.
  - pose proof (drop_spaces_starts s) as Ht.
    destruct (drop_spaces_split (rev (drop_spaces s))) as (q & Hq & _).
    set (d := drop_spaces (rev (drop_spaces s))) in *.
    apply (f_equal (@rev byte)) in Hq.
    rewrite rev_involutive, rev_app_distr in Hq.
    destruct (rev d) as [|b r]; [reflexivity|].
    rewrite Hq in Ht. exact Ht.
  - rewrite rev_involutive. apply drop_spaces_starts.
Qed.

(** Trimming changes nothing exactly when there is no white space at
    either end. *)
Lemma trim_ascii_space_fixed (s : bytes) :
  trim_ascii_space s = s
  <-> starts_with_space s = false /\ ends_with_space s = false.
Proof.
  split.
  - intros H. rewrite <- H. apply trim_ascii_space_ends.
  - intros [Hs He]. unfold trim_ascii_space, ends_with_space in *.
    rewrite (drop_spaces_id _ Hs), (drop_spaces_id _ He).
    apply rev_involutive.
Qed.

Lemma trim_ascii_space_all (s : bytes) :
  all_ascii_space s -> trim_ascii_space s = [].
Proof.
  intros H. unfold trim_ascii_space. rewrite (drop_spaces_all _ H).
  reflexivity.
Qed.

Lemma trimmed_ascii (s : bytes) : is_ascii s -> trimmed s = trim_ascii_space s.
Proof. intros H. rewrite trimmed_TrimSpace_start. apply TrimSpace_ascii, H. Qed.

Lemma is_ascii_space_ascii (b : byte) :
  is_ascii_space b = true -> (byte_val b < utf8.RuneSelf)%Z.
Proof. destruct b; vm_compute; congruence. Qed.

Lemma all_ascii_space_is_ascii (s : bytes) : all_ascii_space s -> is_ascii s.
Proof.
  unfold all_ascii_space, is_ascii. intros H.
  eapply Forall_impl; [exact H|].
  intros b Hb. apply is_ascii_space_ascii, Hb.
Qed.

(* ------------------------------------------------------------------ *)
(** ** More about [New], [Get] and [Set] *)

Section Coverage.

Context {Store : Type} (E : Collaborators Store).

Implicit Types (a : awsKMS Store) (w : World E).
Implicit Types (key : string) (val cipherText : bytes).
Implicit Types (e : error).

(** What [Get] returns for a ciphertext that a successful [Encrypt] of
    [val] produced, wherever the inner store holds it. *)
Lemma Get_of_encrypted a val w out ks :
  decrypt_inverts_encrypt E (kmsService a) (kmsID a) (encryptionContext a) ->
  kms_Encrypt_in w (kmsService a) (EncryptRequest a val) = (out, None, ks) ->
  forall w2 key2 ss,
    kms_state w2 = ks ->
    store_Get_in w2 (store a) key2
      = (kms.EncryptOutput_CiphertextBlob out, None, ss) ->
    result (run E (Get a key2) w2) = (trimmed val, None).
Proof.
  intros Hinv Henc w2 key2 ss Hks Hget.
  destruct (Hinv val _ _ _ Henc) as (dout & ks2 & Hdec & Hpt).
  rewrite (run_Get_ok E a key2 w2 _ ss dout ks2 Hget).
  - cbn. rewrite Hpt. reflexivity.
  - unfold kms_Decrypt_in. cbn. rewrite Hks. exact Hdec.
Qed.

(** The round trip, with the trimming named. *)
Lemma roundtrip_trimmed a key val w :
  decrypt_inverts_encrypt E (kmsService a) (kmsID a) (encryptionContext a) ->
  get_returns_last_set E (store a) ->
  result (run E (Set_ a key val) w) = None ->
  result (run E (Get a key) (final (run E (Set_ a key val) w)))
  = (trimmed val, None).
Proof.
  intros Hinv Hstore Hok.
  destruct (kms_Encrypt_in w (kmsService a) (EncryptRequest a val))
    as [[out [e|]] ks] eqn:Henc.
  { rewrite (run_Set_encrypt_error E _ _ _ _ _ _ _ Henc) in Hok.
    discriminate. }
  rewrite (run_Set_encrypt_ok E _ _ _ _ _ _ Henc) in Hok |- *.
  destruct (store_Set_in (with_kms w ks) (store a) key
              (kms.EncryptOutput_CiphertextBlob out)) as [err ss] eqn:Hset.
  cbn in Hok. subst err. cbn [final].
  destruct (Hstore _ _ _ _ Hset) as (ss2 & Hget).
  apply (Get_of_encrypted a val w out ks Hinv Henc _ key ss2);
    [reflexivity|exact Hget].
Qed.

(** [New] panics exactly when the session cannot be made, whatever the
    key identifier: the session comes first, the validation second. *)
Theorem New_panics_iff_session_fails
    (NewSession : aws.Config -> session.Session * option error)
    (s : Store) (region keyID : string) (ctx : gmap string string) :
  New NewSession s region keyID ctx = None
  <-> snd (NewSession {| aws.Region := Some region |}) <> None.
Proof.
  unfold New, session.Must. cbn.
  destruct (NewSession _) as [sess [e|]]; cbn; split; congruence.
Qed.

(** When [New] returns, it returns the configuration error and no store
    if the key identifier is empty; otherwise it returns, without error,
    the decorator of the given store, key identifier and context whose
    client is made from the session of the requested region. *)
Theorem New_result
    (NewSession : aws.Config -> session.Session * option error)
    (s : Store) (region keyID : string) (ctx : gmap string string)
    (r : option (awsKMS Store) * option error) :
  New NewSession s region keyID ctx = Some r ->
  (keyID = ""
   /\ r = (None, Some (errors.fundamental "invalid kmsID specified: ''")))
  \/ (keyID <> ""
      /\ exists sess : session.Session,
           NewSession {| aws.Region := Some region |} = (sess, None)
           /\ r = (Some {| store := s; kmsService := kms.New sess;
                           kmsID := keyID; encryptionContext := ctx |},
                   None)).
Proof.
  unfold New, session.Must. cbn.
  destruct (NewSession _) as [sess [e|]] eqn:Hsess; cbn; [discriminate|].
  intros [= <-]. unfold NewWithSession.
  destruct (String.eqb_spec keyID "") as [->|Hne].
  - left. split; reflexivity.
  - right. split; [exact Hne|]. exists sess. split; [reflexivity|].
    rewrite StringMap_id. reflexivity.
Qed.

(** Every [Get] calls the inner store's [Get] once, first and with its
    key; it then calls [Decrypt] once, with the bytes the store
    returned, if the store returned no error, and makes no call at all
    otherwise. It makes no other call: no [Set], no [Encrypt]. *)
Theorem Get_calls a key w :
  trace (run E (Get a key) w)
  = EvStoreGet (store a) key ::
    match store_Get_in w (store a) key with
    | (_, Some _, _) => []
    | (cipherText, None, _) =>
        [EvKmsDecrypt (kmsService a) (DecryptRequest a cipherText)]
    end.
Proof.
  rewrite run_Get.
  destruct (store_Get_in w (store a) key) as [[cipherText [e|]] ss];
    [reflexivity|].
  cbn beta iota zeta. rewrite run_decrypt. cbn beta iota zeta.
  destruct (kms_Decrypt_in _ _ _) as [[out err] ks]. reflexivity.
Qed.

(** Every [Set] calls [Encrypt] once, first, with the value as it was
    given (nothing is trimmed on the way in); it then calls the inner
    store's [Set] once, with its key and the ciphertext, if [Encrypt]
    returned no error, and makes no call at all otherwise. It makes no
    other call: no [Get], no [Decrypt]. *)
Theorem Set_calls a key val w :
  trace (run E (Set_ a key val) w)
  = EvKmsEncrypt (kmsService a)
      {| kms.EncryptInput_KeyId := Some (kmsID a);
         kms.EncryptInput_Plaintext := val;
         kms.EncryptInput_EncryptionContext := encryptionContext a;
         kms.EncryptInput_GrantTokens := [] |} ::
    match kms_Encrypt_in w (kmsService a) (EncryptRequest a val) with
    | (_, Some _, _) => []
    | (out, None, _) =>
        [EvStoreSet (store a) key (kms.EncryptOutput_CiphertextBlob out)]
    end.
Proof.
  destruct (kms_Encrypt_in w (kmsService a) (EncryptRequest a val))
    as [[out [e|]] ks] eqn:Henc.
  - rewrite (run_Set_encrypt_error E _ _ _ _ _ _ _ Henc). reflexivity.
  - rewrite (run_Set_encrypt_ok E _ _ _ _ _ _ Henc).
    destruct (store_Set_in _ _ _ _) as [err ss]. reflexivity.
Qed.

(** [Get] returns no error exactly when the inner store's [Get] and then
    the remote decrypt of what it returned both return no error. *)
Theorem Get_succeeds_iff a key w :
  snd (result (run E (Get a key) w)) = None
  <-> exists cipherText ss out ks,
        store_Get_in w (store a) key = (cipherText, None, ss)
        /\ kms_Decrypt_in (with_store w ss) (kmsService a)
             (DecryptRequest a cipherText) = (out, None, ks).
Proof.
  split.
  - intros Hok.
    destruct (store_Get_in w (store a) key) as [[cipherText [e|]] ss] eqn:Hget.
    { rewrite (run_Get_store_error E _ _ _ _ _ _ Hget) in Hok. discriminate. }
    destruct (kms_Decrypt_in (with_store w ss) (kmsService a)
                (DecryptRequest a cipherText)) as [[out [e|]] ks] eqn:Hdec.
    { rewrite (run_Get_decrypt_error E _ _ _ _ _ _ _ _ Hget Hdec) in Hok.
      discriminate. }
    eauto 6.
  - intros (cipherText & ss & out & ks & Hget & Hdec).
    rewrite (run_Get_ok E _ _ _ _ _ _ _ Hget Hdec). reflexivity.
Qed.

(** [Set] returns no error exactly when the remote encrypt and then the
    inner store's [Set] of the ciphertext both return no error. *)
Theorem Set_succeeds_iff a key val w :
  result (run E (Set_ a key val) w) = None
  <-> exists out ks ss,
        kms_Encrypt_in w (kmsService a) (EncryptRequest a val)
          = (out, None, ks)
        /\ store_Set_in w (store a) key (kms.EncryptOutput_CiphertextBlob out)
           = (None, ss).
Proof.
  split.
  - intros Hok.
    destruct (kms_Encrypt_in w (kmsService a) (EncryptRequest a val))
      as [[out [e|]] ks] eqn:Henc.
    { rewrite (run_Set_encrypt_error E _ _ _ _ _ _ _ Henc) in Hok.
      discriminate. }
    rewrite (run_Set_encrypt_ok E _ _ _ _ _ _ Henc) in Hok.
    unfold store_Set_in in *. cbn in Hok.
    destruct (store_Set E _ _ _ _) as [err ss] eqn:Hset. cbn in Hok.
    subst err. eauto.
  - intros (out & ks & ss & Henc & Hset).
    rewrite (run_Set_encrypt_ok E _ _ _ _ _ _ Henc).
    unfold store_Set_in in *. cbn. rewrite Hset. reflexivity.
Qed.

(** Whenever [Get] returns an error it returns no bytes with it, even if
    the inner store or the service handed some over with theirs. *)
Theorem Get_error_no_value a key w :
  snd (result (run E (Get a key) w)) <> None ->
  fst (result (run E (Get a key) w)) = [].
Proof.
  rewrite run_Get.
  destruct (store_Get_in w (store a) key) as [[cipherText [e|]] ss];
    [reflexivity|].
  cbn beta iota zeta. rewrite run_decrypt. cbn beta iota zeta.
  destruct (kms_Decrypt_in _ _ _) as [[out [e|]] ks]; cbn; congruence.
Qed.

(** The message tells the stage: the error of a [Get] that failed at the
    inner store, the error of a [Get] that failed after the inner store
    had answered, and the error of a [Set] that failed at the remote
    encrypt never read the same, whatever the underlying failures say. *)
Theorem failure_stages_distinguishable
    a1 a2 a3 key1 key2 key3 val w1 w2 w3 (m1 m2 m3 : error) :
  snd (fst (store_Get_in w1 (store a1) key1)) <> None ->
  snd (result (run E (Get a1 key1) w1)) = Some m1 ->
  snd (fst (store_Get_in w2 (store a2) key2)) = None ->
  snd (result (run E (Get a2 key2) w2)) = Some m2 ->
  snd (fst (kms_Encrypt_in w3 (kmsService a3) (EncryptRequest a3 val)))
    <> None ->
  result (run E (Set_ a3 key3 val) w3) = Some m3 ->
  errors.Error m1 <> errors.Error m2
  /\ errors.Error m1 <> errors.Error m3
  /\ errors.Error m2 <> errors.Error m3.
Proof.
  intros Hs1 Hm1 Hs2 Hm2 He3 Hm3.
  destruct (store_Get_in w1 (store a1) key1) as [[ct1 [e1|]] ss1] eqn:Hget1;
    [|cbn in Hs1; congruence].
  rewrite (run_Get_store_error E _ _ _ _ _ _ Hget1) in Hm1.
  injection Hm1 as <-.
  destruct (store_Get_in w2 (store a2) key2) as [[ct2 [e2|]] ss2] eqn:Hget2;
    [cbn in Hs2; congruence|].
  destruct (kms_Decrypt_in (with_store w2 ss2) (kmsService a2)
              (DecryptRequest a2 ct2)) as [[out2 [e2|]] ks2] eqn:Hdec2.
  2:{ rewrite (run_Get_ok E _ _ _ _ _ _ _ Hget2 Hdec2) in Hm2.
      discriminate. }
  rewrite (run_Get_decrypt_error E _ _ _ _ _ _ _ _ Hget2 Hdec2) in Hm2.
  injection Hm2 as <-.
  destruct (kms_Encrypt_in w3 (kmsService a3) (EncryptRequest a3 val))
    as [[out3 [e3|]] ks3] eqn:Henc3; [|cbn in He3; congruence].
  rewrite (run_Set_encrypt_error E _ _ _ _ _ _ _ Henc3) in Hm3.
  injection Hm3 as <-.
  cbn. repeat split; discriminate.
Qed.

(** The ciphertext is not tied to the key it was written under: if the
    inner store hands the bytes that [Set(key1, val)] stored back under
    any key, in any state of the store, [Get] of that key returns [val]
    trimmed, provided the service still inverts its [Encrypt]. *)
Theorem ciphertext_not_bound_to_key a key1 key2 val cipherText w w2 ss :
  decrypt_inverts_encrypt E (kmsService a) (kmsID a) (encryptionContext a) ->
  EvStoreSet (store a) key1 cipherText
    ∈ trace (run E (Set_ a key1 val) w) ->
  kms_state w2 = kms_state (final (run E (Set_ a key1 val) w)) ->
  store_Get_in w2 (store a) key2 = (cipherText, None, ss) ->
  result (run E (Get a key2) w2)
  = (list_byte_of_string (strings.TrimSpace (string_of_list_byte val)), None).
Proof.
  intros Hinv Hin Hks Hget.
  destruct (kms_Encrypt_in w (kmsService a) (EncryptRequest a val))
    as [[out [e|]] ks] eqn:Henc.
  { rewrite (run_Set_encrypt_error E _ _ _ _ _ _ _ Henc) in Hin.
    apply list_elem_of_singleton in Hin. discriminate. }
  rewrite (run_Set_encrypt_ok E _ _ _ _ _ _ Henc) in Hin, Hks.
  destruct (store_Set_in _ _ _ _) as [err ss1]. cbn in Hin, Hks.
  apply elem_of_cons in Hin as [Hin|Hin]; [discriminate|].
  apply list_elem_of_singleton in Hin. injection Hin as ->.
  exact (Get_of_encrypted a val w out ks Hinv Henc w2 key2 ss Hks Hget).
Qed.

(** [Get] makes up no bytes: what it returns on success is a run of
    consecutive bytes of the decrypted plaintext, so trimming can only
    cut at the two ends, for binary values as for text. *)
Theorem Get_value_part_of_plaintext a key w cipherText ss out ks :
  store_Get_in w (store a) key = (cipherText, None, ss) ->
  kms_Decrypt_in (with_store w ss) (kmsService a)
    (DecryptRequest a cipherText) = (out, None, ks) ->
  part_of (fst (result (run E (Get a key) w)))
          (kms.DecryptOutput_Plaintext out).
Proof.
  intros Hget Hdec. rewrite (run_Get_ok E _ _ _ _ _ _ _ Hget Hdec). cbn.
  rewrite trimmed_TrimSpace_start. apply TrimSpace_start_part_of.
Qed.

(** When the decrypted plaintext is ASCII text, the value [Get] returns
    neither begins nor ends with white space, and what was cut off before
    and after it is white space only. *)
Theorem Get_value_trimmed_ascii a key w cipherText ss out ks :
  store_Get_in w (store a) key = (cipherText, None, ss) ->
  kms_Decrypt_in (with_store w ss) (kmsService a)
    (DecryptRequest a cipherText) = (out, None, ks) ->
  is_ascii (kms.DecryptOutput_Plaintext out) ->
  starts_with_space (fst (result (run E (Get a key) w))) = false
  /\ ends_with_space (fst (result (run E (Get a key) w))) = false
  /\ exists pre post,
       kms.DecryptOutput_Plaintext out
       = pre ++ fst (result (run E (Get a key) w)) ++ post
       /\ all_ascii_space pre /\ all_ascii_space post.
Proof.
  intros Hget Hdec Hascii.
  rewrite (run_Get_ok E _ _ _ _ _ _ _ Hget Hdec). cbn.
  rewrite (trimmed_ascii _ Hascii).
  destruct (trim_ascii_space_ends (kms.DecryptOutput_Plaintext out))
    as [Hs He].
  split; [exact Hs|]. split; [exact He|].
  apply trim_ascii_space_split.
Qed.

(** A plaintext of white space only, the empty one included, is read as
    the empty value, without error. *)
Theorem whitespace_only_reads_empty a key w cipherText ss out ks :
  store_Get_in w (store a) key = (cipherText, None, ss) ->
  kms_Decrypt_in (with_store w ss) (kmsService a)
    (DecryptRequest a cipherText) = (out, None, ks) ->
  all_ascii_space (kms.DecryptOutput_Plaintext out) ->
  result (run E (Get a key) w) = ([], None).
Proof.
  intros Hget Hdec Hsp.
  rewrite (run_Get_ok E _ _ _ _ _ _ _ Hget Hdec). cbn.
  rewrite (trimmed_ascii _ (all_ascii_space_is_ascii _ Hsp)).
  rewrite (trim_ascii_space_all _ Hsp). reflexivity.
Qed.

(** The round trip is exact for some values only: with a service whose
    [Decrypt] inverts its [Encrypt] and a store that returns the last
    value set, a [Get] after a successful [Set] of ASCII text returns the
    very bytes that were set if and only if they neither begin nor end
    with white space. *)
Theorem roundtrip_exact_iff a key val w :
  decrypt_inverts_encrypt E (kmsService a) (kmsID a) (encryptionContext a) ->
  get_returns_last_set E (store a) ->
  is_ascii val ->
  result (run E (Set_ a key val) w) = None ->
  (result (run E (Get a key) (final (run E (Set_ a key val) w)))
   = (val, None)
   <-> starts_with_space val = false /\ ends_with_space val = false).
Proof.
  intros Hinv Hstore Hascii Hok.
  rewrite (roundtrip_trimmed a key val w Hinv Hstore Hok).
  rewrite (trimmed_ascii _ Hascii).
  rewrite <- trim_ascii_space_fixed. split; congruence.
Qed.

(** What [Get] returned can be written back and read again unchanged:
    when a [Get] of ASCII text succeeded with some value, a successful
    [Set] of that value under any key followed by a [Get] of that key
    returns the same value. *)
Theorem Get_value_roundtrips a key key' w cipherText ss out ks :
  decrypt_inverts_encrypt E (kmsService a) (kmsID a) (encryptionContext a) ->
  get_returns_last_set E (store a) ->
  store_Get_in w (store a) key = (cipherText, None, ss) ->
  kms_Decrypt_in (with_store w ss) (kmsService a)
    (DecryptRequest a cipherText) = (out, None, ks) ->
  is_ascii (kms.DecryptOutput_Plaintext out) ->
  let o := run E (Get a key) w in
  let o' := run E (Set_ a key' (fst (result o))) (final o) in
  result o' = None ->
  result (run E (Get a key') (final o')) = (fst (result o), None).
Proof.
  intros Hinv Hstore Hget Hdec Hascii o o' Hok. subst o o'.
  rewrite (roundtrip_trimmed a key' _ _ Hinv Hstore Hok).
  rewrite (run_Get_ok E _ _ _ _ _ _ _ Hget Hdec). cbn [result fst].
  f_equal.
  rewrite (trimmed_ascii _ Hascii).
  assert (is_ascii (trim_ascii_space (kms.DecryptOutput_Plaintext out)))
    as Hascii'.
  { rewrite <- (trimmed_ascii _ Hascii), trimmed_TrimSpace_start.
    exact (part_of_is_ascii _ _ (TrimSpace_start_part_of _) Hascii). }
  rewrite (trimmed_ascii _ Hascii').
  apply trim_ascii_space_fixed, trim_ascii_space_ends.
Qed.

(** White space in front is lost for every value, text or not: a [Get]
    after a successful [Set] of bytes that begin with an ASCII white-space
    character does not return those bytes. *)
Theorem leading_space_not_returned a key val w :
  decrypt_inverts_encrypt E (kmsService a) (kmsID a) (encryptionContext a) ->
  get_returns_last_set E (store a) ->
  result (run E (Set_ a key val) w) = None ->
  starts_with_space val = true ->
  fst (result (run E (Get a key) (final (run E (Set_ a key val) w)))) <> val.
Proof.
  intros Hinv Hstore Hok Hsp.
  rewrite (roundtrip_trimmed a key val w Hinv Hstore Hok). cbn [fst].
  rewrite trimmed_TrimSpace_start.
  destruct val as [|c rest]; [discriminate|]. cbn in Hsp.
  pose proof (is_ascii_space_ascii c Hsp) as Hlt.
  cbn [strings.TrimSpace_start].
  destruct (Z.leb_spec utf8.RuneSelf (byte_val c)) as [Hge|_]; [lia|].
  unfold is_ascii_space in Hsp.
  destruct (strings.asciiSpace (byte_val c) =? 0)%Z; [discriminate|].
  intros Heq.
  pose proof (part_of_length _ _ (TrimSpace_start_part_of rest)) as Hlen.
  rewrite Heq in Hlen. cbn in Hlen. lia.
Qed.

(** Reading does not use the key identifier: two decorators of the same
    store, client and encryption context that differ in their key
    identifier only run [Get] alike, call for call, in every world. *)
Theorem Get_ignores_kmsID a a' key w :
  store a = store a' ->
  kmsService a = kmsService a' ->
  encryptionContext a = encryptionContext a' ->
  run E (Get a key) w = run E (Get a' key) w.
Proof.
  destruct a as [s c k ctx], a' as [s' c' k' ctx']. cbn.
  intros -> -> ->. reflexivity.
Qed.

End Coverage.

(* ------------------------------------------------------------------ *)
(** ** These properties at work on the test doubles *)

Lemma secret_is_ascii : is_ascii secret.
Proof. repeat constructor. Qed.

Lemma plain_secret_is_ascii : is_ascii plain_secret.
Proof. repeat constructor. Qed.

Lemma blank_all_ascii_space : all_ascii_space blank.
Proof. repeat constructor. Qed.

Lemma New_panics_iff_session_fails_witness :
  New NewSession_fails Writable "eu-west-1" "" no_context = None.
Proof.
  apply (proj2 (New_panics_iff_session_fails
                  NewSession_fails Writable "eu-west-1" "" no_context)).
  discriminate.
Defined.

Lemma New_result_witness :
  let r : option (awsKMS Store) * option error := (Some good, None) in
  ("alias/test-key"%string = ""%string
   /\ r = (None, Some (errors.fundamental "invalid kmsID specified: ''")))
  \/ ("alias/test-key"%string <> ""%string
      /\ exists sess0 : session.Session,
           NewSession_ok {| aws.Region := Some "eu-west-1"%string |}
           = (sess0, None)
           /\ r = (Some {| store := Writable; kmsService := kms.New sess0;
                           kmsID := "alias/test-key";
                           encryptionContext := no_context |}, None)).
Proof.
  apply (New_result NewSession_ok Writable "eu-west-1" "alias/test-key"
           no_context (Some good, None)).
  reflexivity.
Defined.

Lemma Get_succeeds_iff_witness :
  snd (result (run fake.collaborators (Get good "password") world1)) = None.
Proof.
  apply (proj2 (Get_succeeds_iff fake.collaborators good "password" world1)).
  exists (x01 :: rev secret), (<["password" := x01 :: rev secret]> no_data),
    {| kms.DecryptOutput_KeyId := Some "alias/test-key"%string;
       kms.DecryptOutput_Plaintext := secret |}, 2.
  split; vm_compute; reflexivity.
Defined.

Lemma Set_succeeds_iff_witness :
  result (run fake.collaborators (Set_ good "password" secret) world0) = None.
Proof.
  apply (proj2 (Set_succeeds_iff fake.collaborators
                  good "password" secret world0)).
  exists {| kms.EncryptOutput_KeyId := Some "alias/test-key"%string;
            kms.EncryptOutput_CiphertextBlob := x01 :: rev secret |}, 1,
    (<["password" := x01 :: rev secret]> no_data).
  split; reflexivity.
Defined.

Lemma Get_error_no_value_witness :
  fst (result (run fake.collaborators (Get good "password") world_garbage))
  = [].
Proof.
  apply (Get_error_no_value fake.collaborators good "password" world_garbage).
  vm_compute. discriminate.
Defined.

Lemma failure_stages_distinguishable_witness :
  "failed to get data for KMS client: key not found"%string
  <> "failed to decrypt with KMS client: InvalidCiphertextException"%string
  /\ "failed to get data for KMS client: key not found"%string
     <> "failed to encrypt with KMS client: NotFoundException"%string
  /\ "failed to decrypt with KMS client: InvalidCiphertextException"%string
     <> "failed to encrypt with KMS client: NotFoundException"%string.
Proof.
  apply (failure_stages_distinguishable fake.collaborators
           good good unknown_key "password" "password" "password" secret
           world0 world_garbage world0
           (errors.withMessage (errors.fundamental "key not found")
              "failed to get data for KMS client")
           (errors.withMessage
              (errors.fundamental "InvalidCiphertextException")
              "failed to decrypt with KMS client")
           (errors.withMessage (errors.fundamental "NotFoundException")
              "failed to encrypt with KMS client")).
  - vm_compute. discriminate.
  - reflexivity.
  - reflexivity.
  - vm_compute. reflexivity.
  - vm_compute. discriminate.
  - reflexivity.
Defined.

Lemma ciphertext_not_bound_to_key_witness :
  result (run fake.collaborators (Get good "elsewhere") world_moved)
  = (plain_secret, None).
Proof.
  apply (ciphertext_not_bound_to_key fake.collaborators
           good "password" "elsewhere" secret (x01 :: rev secret)
           world0 world_moved
           (<["elsewhere" := x01 :: rev secret]> no_data)).
  - apply Decrypt_inverts_Encrypt.
  - apply list_elem_of_further, list_elem_of_here.
  - reflexivity.
  - vm_compute. reflexivity.
Defined.

Lemma Get_value_part_of_plaintext_witness :
  part_of (fst (result (run fake.collaborators (Get good "password") world1)))
          secret.
Proof.
  apply (Get_value_part_of_plaintext fake.collaborators
           good "password" world1 (x01 :: rev secret)
           (<["password" := x01 :: rev secret]> no_data)
           {| kms.DecryptOutput_KeyId := Some "alias/test-key"%string;
              kms.DecryptOutput_Plaintext := secret |} 2).
  - vm_compute. reflexivity.
  - vm_compute. reflexivity.
Defined.

Lemma Get_value_trimmed_ascii_witness :
  starts_with_space
    (fst (result (run fake.collaborators (Get good "password") world1)))
  = false
  /\ ends_with_space
       (fst (result (run fake.collaborators (Get good "password") world1)))
     = false
  /\ exists pre post,
       secret
       = pre ++ fst (result (run fake.collaborators (Get good "password")
                               world1)) ++ post
       /\ all_ascii_space pre /\ all_ascii_space post.
Proof.
  apply (Get_value_trimmed_ascii fake.collaborators
           good "password" world1 (x01 :: rev secret)
           (<["password" := x01 :: rev secret]> no_data)
           {| kms.DecryptOutput_KeyId := Some "alias/test-key"%string;
              kms.DecryptOutput_Plaintext := secret |} 2).
  - vm_compute. reflexivity.
  - vm_compute. reflexivity.
  - exact secret_is_ascii.
Defined.

Lemma whitespace_only_reads_empty_witness :
  result (run fake.collaborators (Get good "password") world_blank)
  = ([], None).
Proof.
  apply (whitespace_only_reads_empty fake.collaborators
           good "password" world_blank (x01 :: rev blank)
           (<["password" := x01 :: rev blank]> no_data)
           {| kms.DecryptOutput_KeyId := Some "alias/test-key"%string;
              kms.DecryptOutput_Plaintext := blank |} 1).
  - vm_compute. reflexivity.
  - vm_compute. reflexivity.
  - exact blank_all_ascii_space.
Defined.

Lemma roundtrip_exact_iff_witness :
  result (run fake.collaborators (Get good "password")
            (final (run fake.collaborators
                      (Set_ good "password" plain_secret) world0)))
  = (plain_secret, None).
Proof.
  apply (proj2 (roundtrip_exact_iff fake.collaborators
                  good "password" plain_secret world0
                  (Decrypt_inverts_Encrypt _ _) Get_returns_last_Set
                  plain_secret_is_ascii eq_refl)).
  split; reflexivity.
Defined.

Lemma Get_value_roundtrips_witness :
  result (run fake.collaborators (Get good "copy")
            (final (run fake.collaborators
                      (Set_ good "copy"
                         (fst (result (run fake.collaborators
                                         (Get good "password") world1))))
                      (final (run fake.collaborators
                                (Get good "password") world1)))))
  = (fst (result (run fake.collaborators (Get good "password") world1)),
     None).
Proof.
  apply (Get_value_roundtrips fake.collaborators
           good "password" "copy" world1 (x01 :: rev secret)
           (<["password" := x01 :: rev secret]> no_data)
           {| kms.DecryptOutput_KeyId := Some "alias/test-key"%string;
              kms.DecryptOutput_Plaintext := secret |} 2).
  - apply Decrypt_inverts_Encrypt.
  - apply Get_returns_last_Set.
  - vm_compute. reflexivity.
  - vm_compute. reflexivity.
  - exact secret_is_ascii.
  - vm_compute. reflexivity.
Defined.

Lemma leading_space_not_returned_witness :
  starts_with_space padded = true
  /\ fst (result (run fake.collaborators (Get good "password")
                 (final (run fake.collaborators
                           (Set_ good "password" padded) world0))))
  <> padded.
Proof.
  split; [reflexivity|].
  apply (leading_space_not_returned fake.collaborators
           good "password" padded world0).
  - apply Decrypt_inverts_Encrypt.
  - apply Get_returns_last_Set.
  - reflexivity.
  - reflexivity.
Defined.

Lemma Get_ignores_kmsID_witness :
  run fake.collaborators (Get unknown_key "password") world1
  = run fake.collaborators (Get good "password") world1.
Proof.
  apply (Get_ignores_kmsID fake.collaborators
           unknown_key good "password" world1); reflexivity.
Defined.
